(** * go-sops, env/main.go: a shallow embedding and its checked properties

    The program decrypts a dotenv file with the external [sops] tool, loads
    it either into a typed record ([LoadSOPSEnv]) or into the process
    environment ([LoadSOPSEnvToSystem]), and prints both with secrets masked
    ([PrintConfig], [PrintSystemEnvVars], [maskSecret], [isSecret]).

    Go strings are byte strings: they are modelled by [string], whose
    characters are the 256 byte values.  Lengths and indices are [nat];
    results that Go reports as a possibly negative [int] are [Z].  A Go
    [map[string]string] and the process environment are [gmap string string].
    Standard output is the list of the texts written by the successive
    [fmt] calls. *)

From Stdlib Require Import Ascii NArith ZArith Lia.
From Stdlib Require DecimalString.
From stdpp Require Import gmap strings list.

Local Open Scope Z_scope.
Local Open Scope nat_scope.

#[local] Arguments String.append !_ _ / : simpl nomatch.

(** * Part I: the program *)

(** ** Byte strings *)

(** [len(s)]. *)
Definition len (s : string) : nat := String.length s.

(** [s[:n]], for [n <= len(s)] (Go panics beyond that; no caller here
    slices out of range). *)
Fixpoint sliceTo (s : string) (n : nat) {struct n} : string :=
  match n, s with
  | S n', String c s' => String c (sliceTo s' n')
  | _, _ => EmptyString
  end.

(** [s[n:]], for [n <= len(s)]. *)
Fixpoint sliceFrom (s : string) (n : nat) {struct n} : string :=
  match n, s with
  | S n', String _ s' => sliceFrom s' n'
  | _, _ => s
  end.

(** [s[i]] as an optional byte. *)
Fixpoint byteAt (s : string) (i : nat) : option ascii :=
  match s, i with
  | EmptyString, _ => None
  | String c _, O => Some c
  | String _ s', S i' => byteAt s' i'
  end.

(** Every byte of [s] passes the test [p]. *)
Fixpoint allBytes (p : ascii -> bool) (s : string) : bool :=
  match s with
  | EmptyString => true
  | String c s' => p c && allBytes p s'
  end.

Fixpoint mapBytes (f : ascii -> ascii) (s : string) : string :=
  match s with
  | EmptyString => EmptyString
  | String c s' => String (f c) (mapBytes f s')
  end.

(** The bytes of [s] from the last to the first. *)
Fixpoint revBytes (s : string) : string :=
  match s with
  | EmptyString => EmptyString
  | String c s' => revBytes s' +:+ String c EmptyString
  end.

(** The line feed that ends every printed line. *)
Definition nl : string := String "010"%char EmptyString.

(** ** What the Go standard library does outside ASCII

    [strings.ToUpper] and [strings.TrimSpace] have a byte-level path for
    ASCII input, which is modelled below as written in the library, and a
    fallback through UTF-8 decoding and the Unicode tables.  The fallback is
    not code of this repository; it is a parameter of the model.  Part IV
    writes it out from the library ([library]), up to the case tables. *)
Record Unicode := {
  (** [strings.Map(unicode.ToUpper, s)] *)
  MapToUpper : string -> string;
  (** [strings.TrimFunc(s, unicode.IsSpace)] *)
  TrimFuncIsSpace : string -> string;
  (** [strings.TrimRightFunc(s, unicode.IsSpace)] *)
  TrimRightFuncIsSpace : string -> string
}.

(** ** Package [strings] *)

(** [c >= utf8.RuneSelf] *)
Definition aboveASCII (c : ascii) : bool := (128 <=? N_of_ascii c)%N.

Definition isASCIIByte (c : ascii) : bool := negb (aboveASCII c).

(** ['a' <= c && c <= 'z'] *)
Definition isLower (c : ascii) : bool :=
  ((97 <=? N_of_ascii c) && (N_of_ascii c <=? 122))%N.

(** [c -= 'a' - 'A'] on a lower-case letter, other bytes unchanged. *)
Definition upperByte (c : ascii) : ascii :=
  if isLower c then ascii_of_N (N_of_ascii c - 32) else c.

(** [strings.ToUpper(s)]: byte-wise on ASCII-only input, Unicode otherwise. *)
Definition ToUpper (U : Unicode) (s : string) : string :=
  if allBytes isASCIIByte s then mapBytes upperByte s else MapToUpper U s.

(** [strings.Repeat(s, count)] for [count >= 0]. *)
Fixpoint Repeat (s : string) (count : nat) : string :=
  match count with
  | O => EmptyString
  | S n => s +:+ Repeat s n
  end.

(** [strings.HasPrefix(s, prefix)] *)
Fixpoint HasPrefix (s prefix : string) {struct prefix} : bool :=
  match prefix, s with
  | EmptyString, _ => true
  | String p prefix', String c s' => Ascii.eqb c p && HasPrefix s' prefix'
  | String _ _, EmptyString => false
  end.

(** [strings.Index(s, substr)]: the offset of the first occurrence, or -1. *)
Fixpoint Index (s substr : string) : Z :=
  if HasPrefix s substr then 0%Z
  else match s with
       | EmptyString => (-1)%Z
       | String _ s' =>
           let i := Index s' substr in
           if (i <? 0)%Z then (-1)%Z else (i + 1)%Z
       end.

(** [strings.Contains(s, substr)] *)
Definition Contains (s substr : string) : bool := (0 <=? Index s substr)%Z.

(** The table [asciiSpace] of package [strings]. *)
Definition asciiSpace (c : ascii) : bool :=
  match N_of_ascii c with
  | 9%N | 10%N | 11%N | 12%N | 13%N | 32%N => true
  | _ => false
  end.

(** One of the two scanning loops of [strings.TrimSpace]: it walks over
    ASCII white space and stops either at an ASCII byte that is not white
    space ([Stopped], with the text from that byte on) or at a byte outside
    ASCII ([NonASCII], with the text from that byte on). *)
Inductive scanResult :=
| Stopped (rest : string)
| NonASCII (rest : string).

Fixpoint scanSpaces (s : string) : scanResult :=
  match s with
  | EmptyString => Stopped EmptyString
  | String c s' =>
      if aboveASCII c then NonASCII s
      else if asciiSpace c then scanSpaces s'
      else Stopped s
  end.

(** [strings.TrimSpace(s)].  The first loop scans from the front, the second
    from the back (here: from the front of the reversed text). *)
Definition TrimSpace (U : Unicode) (s : string) : string :=
  match scanSpaces s with
  | NonASCII rest => TrimFuncIsSpace U rest
  | Stopped rest =>
      match scanSpaces (revBytes rest) with
      | NonASCII r => TrimRightFuncIsSpace U (revBytes r)
      | Stopped r => revBytes r
      end
  end.

(** The loop of [genSplit]: at most [n] cuts at [sep], the rest in one piece. *)
Fixpoint genSplitLoop (n : nat) (s sep : string) : list string :=
  match n with
  | O => [s]
  | S n' =>
      let m := Index s sep in
      if (m <? 0)%Z then [s]
      else sliceTo s (Z.to_nat m)
             :: genSplitLoop n' (sliceFrom s (Z.to_nat m + len sep)) sep
  end.

(** [strings.SplitN(s, sep, n)] for a non-empty [sep] and [n >= 0], the only
    way the program calls it ([sep = "="], [n = 2]). *)
Definition SplitN (s sep : string) (n : nat) : list string :=
  match n with
  | O => []
  | S _ =>
      let n := if len s + 1 <? n then len s + 1 else n in
      genSplitLoop (n - 1) s sep
  end.

(** ** Errors *)

(** A Go [error] value: one produced outside this program (by [os/exec],
    [os], [godotenv], [bufio] or the system), or one wrapped by
    [fmt.Errorf(msg + ": %w", cause)]. *)
Inductive error :=
| External (what : string)
| Errorf (msg : string) (cause : error).

(** ** The host: everything the program reaches through [os], [os/exec],
    [bufio] and [godotenv] *)
Record Host := {
  (** [exec.Command("sops", "-d", filename).Output()] *)
  sopsDecrypt : string -> string + error;
  (** [os.CreateTemp] of the scratch file: [None] when the file is created *)
  createTemp : option error;
  (** [tmpFile.Write(data)]: [None] when the write succeeds *)
  writeTemp : string -> option error;
  (** [godotenv.Read] of the file holding the given text *)
  godotenvRead : string -> gmap string string + error;
  (** [bufio.Scanner] over the given text: the tokens of the successive
      [Scan] calls and the final [scanner.Err()] *)
  scanLines : string -> list string * option error;
  (** the platform's check of a variable assignment: [None] when accepted *)
  setenvCheck : string -> string -> option error
}.

(** The byte is NUL; the byte is ['=']. *)
Definition isNUL (c : ascii) : bool := Ascii.eqb c "000"%char.

Definition isEq (c : ascii) : bool := Ascii.eqb c "="%char.

(** The check made by [syscall.Setenv] on Unix: the key is not empty and
    holds neither ['='] nor NUL, the value holds no NUL. *)
Definition unixSetenvCheck (key value : string) : option error :=
  if (len key =? 0)
     || negb (allBytes (fun c => negb (isEq c || isNUL c)) key)
     || negb (allBytes (fun c => negb (isNUL c)) value)
  then Some (External "setenv: invalid argument")
  else None.

(** The process: its environment table, and the list of the [os.Setenv]
    calls made so far (oldest first), successful or not. *)
Record Process := {
  environ : gmap string string;
  setenvCalls : list (string * string)
}.

(** [os.Getenv(name)]: the empty string when the variable is unset. *)
Definition Getenv (p : Process) (name : string) : string :=
  default EmptyString (environ p !! name).

(** [os.Setenv(key, value)]: a rejected assignment leaves the table as it was. *)
Definition Setenv (H : Host) (key value : string) (p : Process)
  : Process * option error :=
  let calls := setenvCalls p ++ [(key, value)] in
  match setenvCheck H key value with
  | Some err => ({| environ := environ p; setenvCalls := calls |}, Some err)
  | None => ({| environ := <[key := value]> (environ p); setenvCalls := calls |}, None)
  end.

(** ** [EnvConfig] and [LoadSOPSEnv] (main.go, lines 15-98) *)

Record EnvConfig := {
  DBHost : string;
  DBPort : string;
  DBName : string;
  DBUser : string;
  DBPassword : string;
  DBMaxConnections : string;
  RedisURL : string;
  RedisPassword : string;
  JWTSecret : string;
  APIKey : string;
  StripeSecretKey : string;
  SendGridAPIKey : string;
  GoogleClientID : string;
  GoogleClientSecret : string;
  GitHubClientID : string;
  GitHubClientSecret : string;
  WebhookURL : string;
  NotificationServiceURL : string;
  Environment : string;
  Debug : string;
  LogLevel : string;
  EncryptionKey : string;
  SigningKey : string
}.

(** [m[key]] on a Go map of strings: the zero value when the key is absent. *)
Definition mapIndex (m : gmap string string) (key : string) : string :=
  default EmptyString (m !! key).

(** The composite literal of lines 71-95. *)
Definition configOf (envMap : gmap string string) : EnvConfig := {|
  DBHost := mapIndex envMap "DB_HOST";
  DBPort := mapIndex envMap "DB_PORT";
  DBName := mapIndex envMap "DB_NAME";
  DBUser := mapIndex envMap "DB_USER";
  DBPassword := mapIndex envMap "DB_PASSWORD";
  DBMaxConnections := mapIndex envMap "DB_MAX_CONNECTIONS";
  RedisURL := mapIndex envMap "REDIS_URL";
  RedisPassword := mapIndex envMap "REDIS_PASSWORD";
  JWTSecret := mapIndex envMap "JWT_SECRET";
  APIKey := mapIndex envMap "API_KEY";
  StripeSecretKey := mapIndex envMap "STRIPE_SECRET_KEY";
  SendGridAPIKey := mapIndex envMap "SENDGRID_API_KEY";
  GoogleClientID := mapIndex envMap "GOOGLE_CLIENT_ID";
  GoogleClientSecret := mapIndex envMap "GOOGLE_CLIENT_SECRET";
  GitHubClientID := mapIndex envMap "GITHUB_CLIENT_ID";
  GitHubClientSecret := mapIndex envMap "GITHUB_CLIENT_SECRET";
  WebhookURL := mapIndex envMap "WEBHOOK_URL";
  NotificationServiceURL := mapIndex envMap "NOTIFICATION_SERVICE_URL";
  Environment := mapIndex envMap "ENVIRONMENT";
  Debug := mapIndex envMap "DEBUG";
  LogLevel := mapIndex envMap "LOG_LEVEL";
  EncryptionKey := mapIndex envMap "ENCRYPTION_KEY";
  SigningKey := mapIndex envMap "SIGNING_KEY"
|}.

(** [LoadSOPSEnv(filename)] returns a pointer to an [EnvConfig] and an
    [error]; [None] is the nil of Go in either place.  The scratch file is
    closed and removed on the way out, which no result depends on. *)
Definition LoadSOPSEnv (H : Host) (filename : string)
  : option EnvConfig * option error :=
  match sopsDecrypt H filename with
  | inr err => (None, Some (Errorf "failed to decrypt env file" err))
  | inl decryptedData =>
      match createTemp H with
      | Some err => (None, Some (Errorf "failed to create temp file" err))
      | None =>
          match writeTemp H decryptedData with
          | Some err => (None, Some (Errorf "failed to write temp file" err))
          | None =>
              match godotenvRead H decryptedData with
              | inr err => (None, Some (Errorf "failed to parse env file" err))
              | inl envMap => (Some (configOf envMap), None)
              end
          end
      end
  end.

(** ** [LoadSOPSEnvToSystem] (main.go, lines 100-130) *)

(** The [for scanner.Scan()] loop over the scanned lines.  It returns the
    process after the loop and the error of an early [return], if any. *)
Fixpoint exportLoop (U : Unicode) (H : Host) (lines : list string) (p : Process)
  : Process * option error :=
  match lines with
  | [] => (p, None)
  | text :: rest =>
      let line := TrimSpace U text in
      if String.eqb line EmptyString || HasPrefix line "#" then exportLoop U H rest p
      else
        let parts := SplitN line "=" 2 in
        if negb (length parts =? 2) then exportLoop U H rest p
        else
          let key := TrimSpace U (nth 0 parts EmptyString) in
          let value := TrimSpace U (nth 1 parts EmptyString) in
          match Setenv H key value p with
          | (p', Some err) =>
              (p', Some (Errorf ("failed to set env var " +:+ key) err))
          | (p', None) => exportLoop U H rest p'
          end
  end.

Definition LoadSOPSEnvToSystem (U : Unicode) (H : Host) (filename : string)
  (p : Process) : Process * option error :=
  match sopsDecrypt H filename with
  | inr err => (p, Some (Errorf "failed to decrypt env file" err))
  | inl decryptedData =>
      let (lines, scanErr) := scanLines H decryptedData in
      match exportLoop U H lines p with
      | (p', Some err) => (p', Some err)
      | (p', None) => (p', scanErr)
      end
  end.

(** ** [maskSecret] and [isSecret] (main.go, lines 202-221) *)

Definition maskSecret (value : string) : string :=
  if len value <=? 4 then Repeat "*" (len value)
  else sliceTo value 2 +:+ Repeat "*" (len value - 4)
         +:+ sliceFrom value (len value - 2).

(** The same function with the run-time checks of Go written out: a slice
    expression [s[lo:hi]] panics unless [0 <= lo <= hi <= len(s)], and
    [strings.Repeat] panics on a negative count.  [None] stands for a panic. *)
Definition sliceChecked (s : string) (lo hi : Z) : option string :=
  if ((0 <=? lo) && (lo <=? hi) && (hi <=? Z.of_nat (len s)))%Z
  then Some (sliceTo (sliceFrom s (Z.to_nat lo)) (Z.to_nat (hi - lo)))
  else None.

Definition RepeatChecked (s : string) (count : Z) : option string :=
  if (count <? 0)%Z then None else Some (Repeat s (Z.to_nat count)).

Definition maskSecretChecked (value : string) : option string :=
  let n := Z.of_nat (len value) in
  if (n <=? 4)%Z then RepeatChecked "*" n
  else
    match sliceChecked value 0 2, RepeatChecked "*" (n - 4),
          sliceChecked value (n - 2) n with
    | Some head, Some stars, Some tail => Some (head +:+ stars +:+ tail)
    | _, _, _ => None
    end.

Definition secretVars : list string :=
  ["PASSWORD"; "SECRET"; "KEY"; "TOKEN"; "CREDENTIAL"; "PRIVATE"].

(** The loop of [isSecret] over [secretVars]. *)
Fixpoint containsAny (upper : string) (secrets : list string) : bool :=
  match secrets with
  | [] => false
  | secret :: rest =>
      if Contains upper secret then true else containsAny upper rest
  end.

Definition isSecret (U : Unicode) (varName : string) : bool :=
  let upper := ToUpper U varName in
  containsAny upper secretVars.

(** ** [PrintConfig] and [PrintSystemEnvVars] (main.go, lines 132-200) *)

(** [fmt.Println(s)] writes [s] and a line feed. *)
Definition Println (s : string) : string := s +:+ nl.

(** [fmt.Printf(label + "%s\n", v)], the shape of every [Printf] of
    [PrintConfig]; [label] is the format up to the verb. *)
Definition PrintfLabel (label v : string) : string := label +:+ v +:+ nl.

(** [fmt.Printf("  %s=%s\n", varName, v)] *)
Definition PrintfVar (varName v : string) : string :=
  "  " +:+ varName +:+ "=" +:+ v +:+ nl.

Definition PrintConfig (config : EnvConfig) : list string := [
  Println "🔓 Successfully loaded and decrypted environment configuration:";
  Println "================================================================";

  Println (nl +:+ "📊 Database Configuration:");
  PrintfLabel "  DB_HOST: " (DBHost config);
  PrintfLabel "  DB_PORT: " (DBPort config);
  PrintfLabel "  DB_NAME: " (DBName config);
  PrintfLabel "  DB_USER: " (DBUser config);
  PrintfLabel "  DB_PASSWORD: " (maskSecret (DBPassword config));
  PrintfLabel "  DB_MAX_CONNECTIONS: " (DBMaxConnections config);

  Println (nl +:+ "🔴 Redis Configuration:");
  PrintfLabel "  REDIS_URL: " (maskSecret (RedisURL config));
  PrintfLabel "  REDIS_PASSWORD: " (maskSecret (RedisPassword config));

  Println (nl +:+ "🔐 API Keys & Secrets:");
  PrintfLabel "  JWT_SECRET: " (maskSecret (JWTSecret config));
  PrintfLabel "  API_KEY: " (maskSecret (APIKey config));
  PrintfLabel "  STRIPE_SECRET_KEY: " (maskSecret (StripeSecretKey config));
  PrintfLabel "  SENDGRID_API_KEY: " (maskSecret (SendGridAPIKey config));

  Println (nl +:+ "🔑 OAuth Credentials:");
  PrintfLabel "  GOOGLE_CLIENT_ID: " (GoogleClientID config);
  PrintfLabel "  GOOGLE_CLIENT_SECRET: " (maskSecret (GoogleClientSecret config));
  PrintfLabel "  GITHUB_CLIENT_ID: " (GitHubClientID config);
  PrintfLabel "  GITHUB_CLIENT_SECRET: " (maskSecret (GitHubClientSecret config));

  Println (nl +:+ "🌐 External Services:");
  PrintfLabel "  WEBHOOK_URL: " (WebhookURL config);
  PrintfLabel "  NOTIFICATION_SERVICE_URL: " (NotificationServiceURL config);

  Println (nl +:+ "⚙️ Environment Settings:");
  PrintfLabel "  ENVIRONMENT: " (Environment config);
  PrintfLabel "  DEBUG: " (Debug config);
  PrintfLabel "  LOG_LEVEL: " (LogLevel config);

  Println (nl +:+ "🔒 Encryption Keys:");
  PrintfLabel "  ENCRYPTION_KEY: " (maskSecret (EncryptionKey config));
  PrintfLabel "  SIGNING_KEY: " (maskSecret (SigningKey config))
].

Definition ourVars : list string := [
  "DB_HOST"; "DB_PORT"; "DB_NAME"; "DB_USER"; "DB_PASSWORD"; "DB_MAX_CONNECTIONS";
  "REDIS_URL"; "REDIS_PASSWORD";
  "JWT_SECRET"; "API_KEY"; "STRIPE_SECRET_KEY"; "SENDGRID_API_KEY";
  "GOOGLE_CLIENT_ID"; "GOOGLE_CLIENT_SECRET"; "GITHUB_CLIENT_ID"; "GITHUB_CLIENT_SECRET";
  "WEBHOOK_URL"; "NOTIFICATION_SERVICE_URL";
  "ENVIRONMENT"; "DEBUG"; "LOG_LEVEL";
  "ENCRYPTION_KEY"; "SIGNING_KEY"
].

(** The [for _, varName := range ourVars] loop. *)
Fixpoint printVars (U : Unicode) (p : Process) (names : list string) : list string :=
  match names with
  | [] => []
  | varName :: rest =>
      let value := Getenv p varName in
      if negb (String.eqb value EmptyString) then
        (if isSecret U varName
         then PrintfVar varName (maskSecret value)
         else PrintfVar varName value) :: printVars U p rest
      else printVars U p rest
  end.

(** [os.Environ()] is read and sorted at lines 178-179 but the result is not
    used; it leaves no trace in the output. *)
Definition PrintSystemEnvVars (U : Unicode) (p : Process) : list string :=
  Println (nl +:+ "🌍 Environment Variables (loaded into system):")
  :: Println "================================================"
  :: printVars U p ourVars.

(** * Part II: the vocabulary of the specification *)

(** The schema: every key of the dotenv document that has a field in
    [EnvConfig], with the field it is loaded into. *)
Definition schema : list (string * (EnvConfig -> string)) := [
  ("DB_HOST", DBHost); ("DB_PORT", DBPort); ("DB_NAME", DBName);
  ("DB_USER", DBUser); ("DB_PASSWORD", DBPassword);
  ("DB_MAX_CONNECTIONS", DBMaxConnections);
  ("REDIS_URL", RedisURL); ("REDIS_PASSWORD", RedisPassword);
  ("JWT_SECRET", JWTSecret); ("API_KEY", APIKey);
  ("STRIPE_SECRET_KEY", StripeSecretKey); ("SENDGRID_API_KEY", SendGridAPIKey);
  ("GOOGLE_CLIENT_ID", GoogleClientID); ("GOOGLE_CLIENT_SECRET", GoogleClientSecret);
  ("GITHUB_CLIENT_ID", GitHubClientID); ("GITHUB_CLIENT_SECRET", GitHubClientSecret);
  ("WEBHOOK_URL", WebhookURL); ("NOTIFICATION_SERVICE_URL", NotificationServiceURL);
  ("ENVIRONMENT", Environment); ("DEBUG", Debug); ("LOG_LEVEL", LogLevel);
  ("ENCRYPTION_KEY", EncryptionKey); ("SIGNING_KEY", SigningKey)
].

(** The line of the typed-record report for the field [name], showing [shown]. *)
Definition recordLine (name shown : string) : string :=
  "  " +:+ name +:+ ": " +:+ shown +:+ nl.

(** What a display path shows for a value when it follows the classifier. *)
Definition shownAs (sensitive : bool) (value : string) : string :=
  if sensitive then maskSecret value else value.

Definition isStar (c : ascii) : bool := Ascii.eqb c "*"%char.

(** A string has the masked shape when all its bytes, or all but the first
    two and the last two when it has more than four, are the mask byte. *)
Definition maskedShape (s : string) : bool :=
  if len s <=? 4 then allBytes isStar s
  else allBytes isStar (sliceTo (sliceFrom s 2) (len s - 4)).

(** [sub] occurs in [s] as a contiguous run of bytes. *)
Definition occursIn (sub s : string) : Prop :=
  exists l r, s = l +:+ sub +:+ r.

(** The byte [c] is the letter [C] in either case: [c] is [C] itself, or
    [C] is a capital letter and [c] the small letter 32 places after it. *)
Definition letterOf (c C : ascii) : bool :=
  Ascii.eqb c C
  || ((65 <=? N_of_ascii C)%N && (N_of_ascii C <=? 90)%N
      && (N_of_ascii c =? N_of_ascii C + 32)%N).

(** [x] spells the marker [m] in some mix of letter cases. *)
Fixpoint spells (x m : string) : bool :=
  match x, m with
  | EmptyString, EmptyString => true
  | String c x', String C m' => letterOf c C && spells x' m'
  | _, _ => false
  end.

(** The name contains the marker in some letter case. *)
Definition containsAnyCase (name marker : string) : Prop :=
  exists x, spells x marker = true /\ occursIn x name.

(** The text before the first ['='] of [s] and the text after it. *)
Fixpoint cutAtEq (s : string) : option (string * string) :=
  match s with
  | EmptyString => None
  | String c s' =>
      if isEq c then Some (EmptyString, s')
      else match cutAtEq s' with
           | Some (k, v) => Some (String c k, v)
           | None => None
           end
  end.

(** The entry a raw line stands for, if any: the line is trimmed; a blank
    line and a line starting with ['#'] stand for nothing; otherwise the line
    is cut at its first ['='], and key and value are trimmed. *)
Definition entryOf (U : Unicode) (text : string) : option (string * string) :=
  match TrimSpace U text with
  | EmptyString => None
  | String c rest =>
      if Ascii.eqb c "#"%char then None
      else match cutAtEq (String c rest) with
           | Some (k, v) => Some (TrimSpace U k, TrimSpace U v)
           | None => None
           end
  end.

Definition entriesOf (U : Unicode) (lines : list string) : list (string * string) :=
  omap (entryOf U) lines.

(** The value given to [key] by the last entry that names it. *)
Fixpoint lastValue (key : string) (entries : list (string * string)) : option string :=
  match entries with
  | [] => None
  | (k, v) :: rest =>
      match lastValue key rest with
      | Some v' => Some v'
      | None => if String.eqb k key then Some v else None
      end
  end.

(** The environment after the entries are assigned in order. *)
Definition assignAll (entries : list (string * string)) (env : gmap string string)
  : gmap string string :=
  foldl (fun e kv => <[kv.1 := kv.2]> e) env entries.

(** Every assignment of the list is accepted by the platform. *)
Definition allAccepted (H : Host) (entries : list (string * string)) : Prop :=
  Forall (fun kv => setenvCheck H kv.1 kv.2 = None) entries.

(** A text without white space at either end, as far as the byte-level path
    of [TrimSpace] can tell: it is empty, or its first and its last byte are
    ASCII and not white space. *)
Definition solidByte (c : ascii) : bool := isASCIIByte c && negb (asciiSpace c).

Definition solidEnds (t : string) : bool :=
  match t with
  | EmptyString => true
  | String c _ =>
      solidByte c
      && match revBytes t with String d _ => solidByte d | EmptyString => false end
  end.

(** A host for examples: decryption yields the given text, the temporary
    file works, the parser yields the given map, the scanner yields the given
    lines, and assignments are checked as on Unix. *)
Definition exampleHost (text : string) (envMap : gmap string string)
  (lines : list string) : Host := {|
  sopsDecrypt := fun _ => inl text;
  createTemp := None;
  writeTemp := fun _ => None;
  godotenvRead := fun _ => inl envMap;
  scanLines := fun _ => (lines, None);
  setenvCheck := unixSetenvCheck
|}.

(** A host whose decryptor fails. *)
Definition failingHost : Host := {|
  sopsDecrypt := fun _ => inr (External "exit status 128");
  createTemp := None;
  writeTemp := fun _ => None;
  godotenvRead := fun _ => inl ∅;
  scanLines := fun _ => ([], None);
  setenvCheck := unixSetenvCheck
|}.

(** Unicode fallbacks for examples; the examples use ASCII text only, on
    which the fallbacks are never reached. *)
Definition exampleUnicode : Unicode := {|
  MapToUpper := fun s => s;
  TrimFuncIsSpace := fun s => s;
  TrimRightFuncIsSpace := fun s => s
|}.

Definition emptyProcess : Process := {| environ := ∅; setenvCalls := [] |}.

(** The process after the given assignments were made, all accepted. *)
Definition afterAssignments (entries : list (string * string)) (p : Process)
  : Process :=
  {| environ := assignAll entries (environ p);
     setenvCalls := setenvCalls p ++ entries |}.

(** One turn of the export loop, read through [entryOf]: a line without
    an entry goes on to the next line; a line with an entry assigns it, and
    either returns the wrapped error or goes on. *)
Definition loopStep (U : Unicode) (H : Host) (text : string)
  (next : Process -> Process * option error) (p : Process)
  : Process * option error :=
  match entryOf U text with
  | None => next p
  | Some (k, v) =>
      match Setenv H k v p with
      | (p', Some err) => (p', Some (Errorf ("failed to set env var " +:+ k) err))
      | (p', None) => next p'
      end
  end.

(** The lines of a report that start with the given label. *)
Definition linesLabelled (label : string) (out : list string) : list string :=
  List.filter (fun o => HasPrefix o label) out.

(** The label of a field in the typed-record report, and the label of a
    variable in the environment-table report. *)
Definition recordLabel (name : string) : string := "  " +:+ name +:+ ": ".

Definition varLabel (name : string) : string := "  " +:+ name +:+ "=".

(** What the environment-table report owes to one allow-listed name: nothing
    when its value is empty, else its line, masked as the classifier says. *)
Definition renderVar (U : Unicode) (p : Process) (name : string) : option string :=
  let value := Getenv p name in
  if String.eqb value EmptyString then None
  else Some (PrintfVar name (shownAs (isSecret U name) value)).

(** Data for the examples. *)
Definition exampleMap : gmap string string :=
  {[ "DB_HOST" := "localhost"; "DB_PORT" := "5432";
     "DB_PASSWORD" := "super_secret_password_123" ]}.

Definition exampleLines : list string :=
  ["# database"; EmptyString; "  DB_HOST = localhost  "; "DB_PORT=5432";
   "no separator"; "DB_HOST=db.internal"].

Definition redisConfig : EnvConfig :=
  configOf {[ "REDIS_URL" := "redis://localhost:6379" ]}.

(** A process that inherited a value for [JWT_SECRET] from its parent. *)
Definition inheritedProcess : Process :=
  {| environ := {[ "JWT_SECRET" := "topsecret" ]}; setenvCalls := [] |}.

(** * Part III: the rest of the program *)

(** ** [main] of env/main.go (lines 223-269) *)

(** [err.Error()]: the text of an error; [fmt.Errorf(msg + ": %w", cause)]
    puts the text of the cause after the message. *)
Fixpoint errorText (e : error) : string :=
  match e with
  | External what => what
  | Errorf msg cause => msg +:+ ": " +:+ errorText cause
  end.

(** What a run of a program leaves behind: the texts written to standard
    output and to standard error, the exit status, and the process. *)
Record Run := {
  stdout : list string;
  stderr : list string;
  exitCode : nat;
  after : Process
}.

(** [log.Fatalf(format, err)] writes the message to standard error, after
    the date and time the standard logger puts first ([stamp]), and exits
    with status 1. *)
Definition Fatalf (stamp msg : string) : string := stamp +:+ msg +:+ nl.

(** [fmt.Printf("   Database DSN: postgresql://%s:%s@%s:%s/%s\n", ...)] *)
Definition dsnLine (user password host port name : string) : string :=
  "   Database DSN: postgresql://" +:+ user +:+ ":" +:+ password +:+ "@"
    +:+ host +:+ ":" +:+ port +:+ "/" +:+ name +:+ nl.

(** The three lines written before the first load. *)
Definition banner : list string := [
  Println "🔐 SOPS Environment Variable Manager";
  Println "=====================================";
  Println (nl +:+ "📋 Method 1: Loading into structured configuration")
].

(** [main].  The file is decrypted twice, once by each load; [first] is the
    host as the first load finds it and [second] the host as the second load
    finds it.  A nil record with a nil error, which [LoadSOPSEnv] never
    returns, would make [PrintConfig] panic at its first field, after its
    three opening lines; Go exits with status 2 then. *)
Definition main (U : Unicode) (first second : Host) (stamp : string)
  (p : Process) : Run :=
  match LoadSOPSEnv first "config.sops.env" with
  | (_, Some err) =>
      {| stdout := banner;
         stderr := [Fatalf stamp ("Error loading SOPS env config: " +:+ errorText err)];
         exitCode := 1;
         after := p |}
  | (None, None) =>
      {| stdout := banner ++ [
           Println "🔓 Successfully loaded and decrypted environment configuration:";
           Println "================================================================";
           Println (nl +:+ "📊 Database Configuration:")];
         stderr := ["panic: runtime error: invalid memory address or nil pointer dereference"
                      +:+ nl];
         exitCode := 2;
         after := p |}
  | (Some config, None) =>
      let report :=
        banner ++ PrintConfig config
          ++ [Println (nl +:+ Repeat "=" 60);
              Println (nl +:+ "📋 Method 2: Loading into system environment variables")] in
      match LoadSOPSEnvToSystem U second "config.sops.env" p with
      | (p', Some err) =>
          {| stdout := report;
             stderr := [Fatalf stamp
                          ("Error loading SOPS env to system: " +:+ errorText err)];
             exitCode := 1;
             after := p' |}
      | (p', None) =>
          {| stdout :=
               report ++ PrintSystemEnvVars U p'
                 ++ [Println (nl +:+ Repeat "=" 60);
                     Println "🚀 Example Usage:";
                     Println (nl +:+ "1️⃣ Using Structured Config:");
                     dsnLine (DBUser config) (maskSecret (DBPassword config))
                       (DBHost config) (DBPort config) (DBName config);
                     Println (nl +:+ "2️⃣ Using System Environment Variables:");
                     dsnLine (Getenv p' "DB_USER") (maskSecret (Getenv p' "DB_PASSWORD"))
                       (Getenv p' "DB_HOST") (Getenv p' "DB_PORT") (Getenv p' "DB_NAME");
                     Println (nl +:+ "✅ SOPS environment variable integration complete!");
                     Println "Your environment secrets are now loaded and ready to use! 🎉"];
             stderr := [];
             exitCode := 0;
             after := p' |}
      end
  end.

(** The label of the two data-source lines of [main]. *)
Definition dsnLabel : string := "   Database DSN: ".

(** The process with one more variable in its environment. *)
Definition withVar (key value : string) (p : Process) : Process :=
  {| environ := <[key := value]> (environ p); setenvCalls := setenvCalls p |}.

(** ** The YAML program (yaml/main.go) *)

Module Yaml.

(** The structs [PSQL], [Redis], [Storage], [JWT] and [Config].  Two structs
    have fields [Port], [Username] and [Password]; the fields carry the name
    of their struct here.  A Go [int] is a [Z]. *)
Record PSQL := {
  PSQLHost : string;
  PSQLPort : Z;
  PSQLDatabase : string;
  PSQLUsername : string;
  PSQLPassword : string;
  PGPoolMaxConn : Z
}.

Record Redis := {
  RedisAddr : string;
  RedisPort : Z;
  RedisUsername : string;
  RedisPassword : string;
  RedisDB : Z
}.

Record Storage := {
  StoragePSQL : PSQL;
  StorageRedis : Redis
}.

Record JWT := {
  Auth : string
}.

Record Config := {
  ConfigStorage : Storage;
  ConfigJWT : JWT
}.

(** [yaml.Unmarshal(data, &config)] on a zero [Config]: the filled record,
    or the error.  The YAML parser is not code of this repository. *)
Definition Unmarshal := string -> Config + error.

(** The verb [%d] on an [int]. *)
Definition formatInt (z : Z) : string :=
  DecimalString.NilZero.string_of_int (Z.to_int z).

(** [LoadSOPSConfig(filename)] *)
Definition LoadSOPSConfig (H : Host) (unmarshal : Unmarshal) (filename : string)
  : option Config * option error :=
  match sopsDecrypt H filename with
  | inr err => (None, Some (Errorf "failed to decrypt config file" err))
  | inl decryptedData =>
      match unmarshal decryptedData with
      | inr err => (None, Some (Errorf "failed to parse config" err))
      | inl config => (Some config, None)
      end
  end.

(** The report written by [main] for a loaded [config]. *)
Definition report (config : Config) : list string :=
  let psql := StoragePSQL (ConfigStorage config) in
  let redis := StorageRedis (ConfigStorage config) in [
  Println "🔓 Successfully loaded and decrypted configuration:";
  Println "====================================================";

  Println "📊 Database Configuration:";
  PrintfLabel "  Host: " (PSQLHost psql);
  PrintfLabel "  Port: " (formatInt (PSQLPort psql));
  PrintfLabel "  Database: " (PSQLDatabase psql);
  PrintfLabel "  Username: " (PSQLUsername psql);
  PrintfLabel "  Password: " (PSQLPassword psql);
  PrintfLabel "  Max Connections: " (formatInt (PGPoolMaxConn psql));

  Println (nl +:+ "🔴 Redis Configuration:");
  PrintfLabel "  Address: " (RedisAddr redis);
  PrintfLabel "  Port: " (formatInt (RedisPort redis));
  PrintfLabel "  Username: " (RedisUsername redis);
  PrintfLabel "  Password: " (RedisPassword redis);
  PrintfLabel "  Database: " (formatInt (RedisDB redis));

  Println (nl +:+ "🔐 JWT Configuration:");
  PrintfLabel "  Auth Key: " (Auth (ConfigJWT config));

  Println (nl +:+ "======================================================");
  Println "🚀 Example Usage:";
  "PostgreSQL DSN: postgresql://" +:+ PSQLUsername psql +:+ ":" +:+ PSQLPassword psql
    +:+ "@" +:+ PSQLHost psql +:+ ":" +:+ formatInt (PSQLPort psql)
    +:+ "/" +:+ PSQLDatabase psql +:+ nl;
  "Redis URL: redis://" +:+ RedisUsername redis +:+ ":" +:+ RedisPassword redis
    +:+ "@" +:+ RedisAddr redis +:+ ":" +:+ formatInt (RedisPort redis)
    +:+ "/" +:+ formatInt (RedisDB redis) +:+ nl
].

(** [main] of the YAML program. *)
Definition main (H : Host) (unmarshal : Unmarshal) (stamp : string) (p : Process)
  : Run :=
  match LoadSOPSConfig H unmarshal "config.sops.yaml" with
  | (_, Some err) =>
      {| stdout := [];
         stderr := [Fatalf stamp ("Error loading config: " +:+ errorText err)];
         exitCode := 1;
         after := p |}
  | (None, None) =>
      {| stdout := [
           Println "🔓 Successfully loaded and decrypted configuration:";
           Println "====================================================";
           Println "📊 Database Configuration:"];
         stderr := ["panic: runtime error: invalid memory address or nil pointer dereference"
                      +:+ nl];
         exitCode := 2;
         after := p |}
  | (Some config, None) =>
      {| stdout := report config; stderr := []; exitCode := 0; after := p |}
  end.

End Yaml.


(** * Part IV: the standard library outside ASCII

    The paths of [strings.TrimSpace] and [strings.ToUpper] that the record
    [Unicode] stands for, written out from the packages [unicode/utf8],
    [unicode] and [strings] of the Go library.  A rune is an [N]. *)

(** ** Package [unicode/utf8] *)

Definition RuneError : N := 0xFFFD%N.

(** An entry of the table [first]: [as] for an ASCII byte, [xx] for a byte
    that starts no encoding, and [s1] to [s7] for a leading byte, with the
    length of the encoding and the range of [acceptRanges] that its second
    byte has to lie in. *)
Inductive firstEntry :=
| asciiByte
| invalidByte
| leadByte (size : nat) (lo hi : N).

Definition first (c : ascii) : firstEntry :=
  let b := N_of_ascii c in
  (if b <? 0x80 then asciiByte
   else if b <? 0xC2 then invalidByte
   else if b <? 0xE0 then leadByte 2 0x80 0xBF
   else if b =? 0xE0 then leadByte 3 0xA0 0xBF
   else if b <? 0xED then leadByte 3 0x80 0xBF
   else if b =? 0xED then leadByte 3 0x80 0x9F
   else if b <? 0xF0 then leadByte 3 0x80 0xBF
   else if b =? 0xF0 then leadByte 4 0x90 0xBF
   else if b <? 0xF4 then leadByte 4 0x80 0xBF
   else if b =? 0xF4 then leadByte 4 0x80 0x8F
   else invalidByte)%N.

(** [c < locb || hicb < c]: the byte is no continuation byte. *)
Definition notContinuation (c : ascii) : bool :=
  ((N_of_ascii c <? 0x80) || (0xBF <? N_of_ascii c))%N.

(** [utf8.DecodeRuneInString(s)]: the first rune of [s] and its width in
    bytes; [(RuneError, 0)] on the empty string and [(RuneError, 1)] on bytes
    that are no encoding. *)
Definition DecodeRuneInString (s : string) : N * nat :=
  match s with
  | EmptyString => (RuneError, 0)
  | String s0 t0 =>
      match first s0 with
      | asciiByte => (N_of_ascii s0, 1)
      | invalidByte => (RuneError, 1)
      | leadByte sz lo hi =>
          if len s <? sz then (RuneError, 1)
          else
            match t0 with
            | EmptyString => (RuneError, 1)
            | String s1 t1 =>
                if ((N_of_ascii s1 <? lo) || (hi <? N_of_ascii s1))%N
                then (RuneError, 1)
                else if sz <=? 2
                then (N.lor (N.shiftl (N.land (N_of_ascii s0) 0x1F) 6)
                            (N.land (N_of_ascii s1) 0x3F), 2)
                else
                  match t1 with
                  | EmptyString => (RuneError, 1)
                  | String s2 t2 =>
                      if notContinuation s2 then (RuneError, 1)
                      else if sz <=? 3
                      then (N.lor (N.lor (N.shiftl (N.land (N_of_ascii s0) 0x0F) 12)
                                         (N.shiftl (N.land (N_of_ascii s1) 0x3F) 6))
                                  (N.land (N_of_ascii s2) 0x3F), 3)
                      else
                        match t2 with
                        | EmptyString => (RuneError, 1)
                        | String s3 _ =>
                            if notContinuation s3 then (RuneError, 1)
                            else (N.lor (N.lor (N.lor
                                    (N.shiftl (N.land (N_of_ascii s0) 0x07) 18)
                                    (N.shiftl (N.land (N_of_ascii s1) 0x3F) 12))
                                    (N.shiftl (N.land (N_of_ascii s2) 0x3F) 6))
                                    (N.land (N_of_ascii s3) 0x3F), 4)
                        end
                  end
            end
      end
  end.

(** [utf8.RuneStart(b)]: [b&0xC0 != 0x80]. *)
Definition RuneStart (c : ascii) : bool :=
  negb (N.land (N_of_ascii c) 0xC0 =? 0x80)%N.

(** The loop of [DecodeLastRuneInString] that walks back from [start], over
    at most [n] bytes, to a byte that can start an encoding; it ends on that
    byte, or one place before the last byte it looked at. *)
Fixpoint backToStart (n : nat) (s : string) (start : Z) : Z :=
  match n with
  | O => start
  | S n' =>
      match byteAt s (Z.to_nat start) with
      | Some c => if RuneStart c then start else backToStart n' s (start - 1)
      | None => start
      end
  end.

(** [utf8.DecodeLastRuneInString(s)]: the last rune of [s] and its width.
    The limit [lim] is [end - UTFMax], or 0 when that is negative; a start
    found below 0 is taken as 0. *)
Definition DecodeLastRuneInString (s : string) : N * nat :=
  let end_ := len s in
  match byteAt s (end_ - 1) with
  | None => (RuneError, 0)
  | Some c =>
      if (N_of_ascii c <? 0x80)%N then (N_of_ascii c, 1)
      else
        let lim := end_ - 4 in
        let start :=
          Z.to_nat (backToStart (end_ - 1 - lim) s (Z.of_nat end_ - 2)) in
        let (r, size) := DecodeRuneInString (sliceFrom s start) in
        if start + size =? end_ then (r, size) else (RuneError, 1)
  end.

(** The conversion [byte(n)]: the low eight bits. *)
Definition byteOf (n : N) : ascii := ascii_of_N (N.land n 0xFF).

(** [utf8.AppendRune] on an empty buffer: the encoding of a rune; a
    surrogate and a value beyond [MaxRune] are encoded as [RuneError]. *)
Definition AppendRune (r : N) : string :=
  let cont (n : N) := byteOf (N.lor 0x80 (N.land n 0x3F)) in
  (if r <=? 0x7F then String (byteOf r) EmptyString
   else if r <=? 0x7FF then
     String (byteOf (N.lor 0xC0 (N.shiftr r 6))) (String (cont r) EmptyString)
   else if (r <? 0xD800) || ((0xDFFF <? r) && (r <=? 0xFFFF)) then
     String (byteOf (N.lor 0xE0 (N.shiftr r 12)))
       (String (cont (N.shiftr r 6)) (String (cont r) EmptyString))
   else if (0xFFFF <? r) && (r <=? 0x10FFFF) then
     String (byteOf (N.lor 0xF0 (N.shiftr r 18)))
       (String (cont (N.shiftr r 12))
          (String (cont (N.shiftr r 6)) (String (cont r) EmptyString)))
   else String (byteOf 0xEF) (String (byteOf 0xBF) (String (byteOf 0xBD) EmptyString)))%N.

(** The text is empty or its first byte is no continuation byte: no
    encoding that starts before the text runs into it. *)
Definition startsRune (w : string) : bool :=
  match w with
  | EmptyString => true
  | String c _ => notContinuation c
  end.

(** ** Package [unicode] *)

(** The 16-bit ranges of the table [White_Space], of stride 1 each; its
    first four ranges ([LatinOffset]) lie in Latin-1. *)
Definition White_Space : list (N * N) :=
  [(0x0009, 0x000D); (0x0020, 0x0020); (0x0085, 0x0085); (0x00A0, 0x00A0);
   (0x1680, 0x1680); (0x2000, 0x200A); (0x2028, 0x2029); (0x202F, 0x202F);
   (0x205F, 0x205F); (0x3000, 0x3000)]%N.

(** [isExcludingLatin(table, r)] for a table of 16-bit ranges only: the
    search of [is16] through the ranges after the first [latinOffset]. *)
Definition isExcludingLatin (table : list (N * N)) (latinOffset : nat) (r : N) : bool :=
  existsb (fun range => (range.1 <=? r) && (r <=? range.2))%N (skipn latinOffset table).

(** [unicode.IsSpace(r)]: a switch over the eight white space runes of
    Latin-1, the table beyond. *)
Definition IsSpace (r : N) : bool :=
  (if r <=? 0xFF
   then (r =? 0x09) || (r =? 0x0A) || (r =? 0x0B) || (r =? 0x0C) || (r =? 0x0D)
        || (r =? 0x20) || (r =? 0x85) || (r =? 0xA0)
   else isExcludingLatin White_Space 4 r)%N.

(** [unicode.ToUpper(r)]: written out for ASCII; beyond ASCII it looks the
    rune up in the case tables, which are the parameter [caseTable]. *)
Definition ToUpperRune (caseTable : N -> N) (r : N) : N :=
  (if r <=? 0x7F
   then if (0x61 <=? r) && (r <=? 0x7A) then r - 0x20 else r
   else caseTable r)%N.

(** ** Package [strings], the paths through UTF-8 *)

(** The loop [for i, r := range s] of [indexFunc(s, f, truth)]: [rest] is
    the text from offset [i] on.  The result is the offset of the first rune
    on which [f] answers [truth], or -1. *)
Fixpoint indexLoop (fuel : nat) (f : N -> bool) (truth : bool) (rest : string)
  (i : nat) : Z :=
  match fuel with
  | O => (-1)%Z
  | S fuel' =>
      match rest with
      | EmptyString => (-1)%Z
      | String _ _ =>
          let (r, size) := DecodeRuneInString rest in
          if Bool.eqb (f r) truth then Z.of_nat i
          else indexLoop fuel' f truth (sliceFrom rest size) (i + size)
      end
  end.

Definition indexFunc (s : string) (f : N -> bool) (truth : bool) : Z :=
  indexLoop (len s) f truth s 0.

(** The loop [for i := len(s); i > 0; ] of [lastIndexFunc(s, f, truth)]. *)
Fixpoint lastIndexLoop (fuel : nat) (f : N -> bool) (truth : bool) (s : string)
  (i : nat) : Z :=
  match fuel with
  | O => (-1)%Z
  | S fuel' =>
      if i =? 0 then (-1)%Z
      else
        let (r, size) := DecodeLastRuneInString (sliceTo s i) in
        let i := i - size in
        if Bool.eqb (f r) truth then Z.of_nat i
        else lastIndexLoop fuel' f truth s i
  end.

Definition lastIndexFunc (s : string) (f : N -> bool) (truth : bool) : Z :=
  lastIndexLoop (len s) f truth s (len s).

(** [strings.TrimLeftFunc(s, f)] *)
Definition TrimLeftFunc (s : string) (f : N -> bool) : string :=
  let i := indexFunc s f false in
  if (i =? -1)%Z then EmptyString else sliceFrom s (Z.to_nat i).

(** [strings.TrimRightFunc(s, f)]: the index found is that of the first
    byte of the last rune kept; the width of that rune is added to it. *)
Definition TrimRightFunc (s : string) (f : N -> bool) : string :=
  let i := lastIndexFunc s f false in
  let i :=
    if (0 <=? i)%Z
       && match byteAt s (Z.to_nat i) with
          | Some c => aboveASCII c
          | None => false
          end
    then (i + Z.of_nat (DecodeRuneInString (sliceFrom s (Z.to_nat i))).2)%Z
    else (i + 1)%Z in
  sliceTo s (Z.to_nat i).

(** [strings.TrimFunc(s, f)] *)
Definition TrimFunc (s : string) (f : N -> bool) : string :=
  TrimRightFunc (TrimLeftFunc s f) f.

(** [strings.Map(mapping, s)] for a mapping that drops no rune: the
    encodings of the images of the runes of [s], a byte that is no encoding
    counting as [RuneError].  (The library copies the input up to the first
    rune that changes; what it copies is the encoding of the runes it
    skips.) *)
Fixpoint mapLoop (fuel : nat) (mapping : N -> N) (rest : string) : string :=
  match fuel with
  | O => EmptyString
  | S fuel' =>
      match rest with
      | EmptyString => EmptyString
      | String _ _ =>
          let (c, size) := DecodeRuneInString rest in
          AppendRune (mapping c) +:+ mapLoop fuel' mapping (sliceFrom rest size)
      end
  end.

Definition Map (mapping : N -> N) (s : string) : string := mapLoop (len s) mapping s.

(** The library as it is, given the case tables. *)
Definition library (caseTable : N -> N) : Unicode := {|
  MapToUpper := Map (ToUpperRune caseTable);
  TrimFuncIsSpace := fun s => TrimFunc s IsSpace;
  TrimRightFuncIsSpace := fun s => TrimRightFunc s IsSpace
|}.

(** * Part V: more vocabulary of the specification *)

(** The string of the given bytes. *)
Definition ofBytes (l : list N) : string :=
  fold_right (fun b s => String (ascii_of_N b) s) EmptyString l.













(** The case tables as far as the examples need them: the two runes
    beyond ASCII whose upper case is an ASCII letter, U+0131 (dotless i) and
    U+017F (long s); other runes are left as they are here. *)
Definition caseFragment (r : N) : N :=
  (if r =? 0x131 then 0x49 else if r =? 0x17F then 0x53 else r)%N.

(** The name spelled long s, e, c, r, e, t. *)
Definition longSecret : string := ofBytes [0xC5; 0xBF]%N +:+ "ecret".



(** The host as a later run may find it: the decryptor, the scanner and the
    platform answer as in [exampleHost]; no scratch file can be created any
    more. *)
Definition laterHost (text : string) (lines : list string) : Host := {|
  sopsDecrypt := fun _ => inl text;
  createTemp := Some (External "no space left on device");
  writeTemp := fun _ => None;
  godotenvRead := fun _ => inl ∅;
  scanLines := fun _ => (lines, None);
  setenvCheck := unixSetenvCheck
|}.

(** ** Proof steps used more than once *)

(** Case analysis on every comparison of numbers in sight. *)
Ltac split_tests :=
  repeat match goal with
         | |- context [N.ltb ?a ?b] => destruct (N.ltb_spec a b)
         | |- context [N.leb ?a ?b] => destruct (N.leb_spec a b)
         | |- context [N.eqb ?a ?b] => destruct (N.eqb_spec a b)
         | H : context [N.ltb ?a ?b] |- _ => destruct (N.ltb_spec a b)
         | H : context [N.leb ?a ?b] |- _ => destruct (N.leb_spec a b)
         | H : context [N.eqb ?a ?b] |- _ => destruct (N.eqb_spec a b)
         end.

(** * Part VI: properties *)

(** ** Facts about byte strings *)

Lemma app_nil_r_s (s : string) : s +:+ EmptyString = s.
Proof. induction s as [|c s IH]; simpl; [reflexivity | now rewrite IH]. Qed.

Lemma app_assoc_s (a b c : string) : (a +:+ b) +:+ c = a +:+ (b +:+ c).
Proof. induction a as [|x a IH]; simpl; [reflexivity | now rewrite IH]. Qed.

Lemma len_app (a b : string) : len (a +:+ b) = len a + len b.
Proof.
  induction a as [|x a IH]; simpl; [reflexivity | ].
  unfold len in *. simpl. now rewrite IH.
Qed.

Lemma len_cons (c : ascii) (s : string) : len (String c s) = S (len s).
Proof. reflexivity. Qed.

Lemma len_zero (s : string) : len s = 0 -> s = EmptyString.
Proof. destruct s; [reflexivity | discriminate]. Qed.

Lemma len_sliceTo (s : string) (n : nat) : n <= len s -> len (sliceTo s n) = n.
Proof.
  revert s. induction n as [|n IH]; intros [|c s] H; simpl; try reflexivity.
  - unfold len in H. simpl in H. lia.
  - rewrite !len_cons in *. rewrite IH; lia.
Qed.

Lemma len_sliceFrom (s : string) (n : nat) : len (sliceFrom s n) = len s - n.
Proof.
  revert s. induction n as [|n IH]; intros [|c s]; simpl; try reflexivity.
  apply IH.
Qed.

Lemma sliceTo_sliceFrom (s : string) (n : nat) : sliceTo s n +:+ sliceFrom s n = s.
Proof.
  revert s. induction n as [|n IH]; intros [|c s]; simpl; try reflexivity.
  now rewrite IH.
Qed.

Lemma sliceTo_app (a b : string) : sliceTo (a +:+ b) (len a) = a.
Proof. induction a as [|x a IH]; simpl; [now destruct b | now rewrite IH]. Qed.

Lemma sliceFrom_app (a b : string) : sliceFrom (a +:+ b) (len a) = b.
Proof. induction a as [|x a IH]; simpl; [now destruct b | exact IH]. Qed.

Lemma sliceTo_app_len (a b : string) (n : nat) :
  len a = n -> sliceTo (a +:+ b) n = a.
Proof. intros <-. apply sliceTo_app. Qed.

Lemma sliceFrom_app_len (a b : string) (n : nat) :
  len a = n -> sliceFrom (a +:+ b) n = b.
Proof. intros <-. apply sliceFrom_app. Qed.

Lemma sliceFrom_sliceFrom (s : string) (a b : nat) :
  sliceFrom (sliceFrom s a) b = sliceFrom s (a + b).
Proof.
  revert s. induction a as [|a IH]; intros s; simpl; [reflexivity | ].
  destruct s as [|c s]; [ | apply IH].
  destruct b; reflexivity.
Qed.

Lemma app_inv_len (a a' b b' : string) :
  len a = len a' -> a +:+ b = a' +:+ b' -> a = a' /\ b = b'.
Proof.
  revert a'. induction a as [|x a IH]; intros [|x' a'] Hl He; simpl in *;
    try discriminate; [auto | ].
  injection He as -> He. injection Hl as Hl.
  destruct (IH a' Hl He) as [-> ->]. auto.
Qed.

Lemma byteAt_app_l (a b : string) (i : nat) :
  i < len a -> byteAt (a +:+ b) i = byteAt a i.
Proof.
  revert i. induction a as [|x a IH]; intros i H; [unfold len in H; simpl in H; lia | ].
  destruct i as [|i]; simpl; [reflexivity | ].
  apply IH. rewrite len_cons in H. lia.
Qed.

Lemma byteAt_app_r (a b : string) (i : nat) :
  byteAt (a +:+ b) (len a + i) = byteAt b i.
Proof. induction a as [|x a IH]; simpl; [reflexivity | exact IH]. Qed.

Lemma allBytes_app (p : ascii -> bool) (a b : string) :
  allBytes p (a +:+ b) = allBytes p a && allBytes p b.
Proof.
  induction a as [|x a IH]; simpl; [reflexivity | ].
  rewrite IH. now rewrite andb_assoc.
Qed.

Lemma allBytes_byteAt (p : ascii -> bool) (s : string) :
  allBytes p s = true <-> forall i c, byteAt s i = Some c -> p c = true.
Proof.
  induction s as [|x s IH]; simpl.
  - split; [intros _ i c H; destruct i; discriminate | reflexivity].
  - rewrite andb_true_iff, IH. split.
    + intros [Hx Hs] [|i] c H; simpl in H; [now inversion H; subst | eauto].
    + intros H. split; [apply (H 0); reflexivity | ].
      intros i c Hi. apply (H (S i)). exact Hi.
Qed.

Lemma byteAt_lt (s : string) (i : nat) : i < len s -> exists c, byteAt s i = Some c.
Proof.
  revert i. induction s as [|x s IH]; intros i H; [unfold len in H; simpl in H; lia | ].
  destruct i as [|i]; simpl; [eauto | ]. apply IH. rewrite len_cons in H. lia.
Qed.

(** ** [Repeat] *)

Lemma len_Repeat (s : string) (n : nat) : len (Repeat s n) = n * len s.
Proof. induction n as [|n IH]; simpl; [reflexivity | ]. rewrite len_app, IH. lia. Qed.

Lemma len_Repeat_star (n : nat) : len (Repeat "*" n) = n.
Proof. rewrite len_Repeat. unfold len; simpl; lia. Qed.

Lemma Repeat_star_all (n : nat) : allBytes isStar (Repeat "*" n) = true.
Proof. induction n as [|n IH]; simpl; [reflexivity | exact IH]. Qed.

Lemma allStars_Repeat (s : string) :
  allBytes isStar s = true -> s = Repeat "*" (len s).
Proof.
  induction s as [|c s IH]; [reflexivity | ].
  cbn [allBytes]. rewrite andb_true_iff. intros [Hc Hs].
  apply Ascii.eqb_eq in Hc. subst c. rewrite len_cons. cbn [Repeat].
  rewrite <- IH by exact Hs. reflexivity.
Qed.

(** ** [maskSecret] *)

Lemma maskSecret_short (s : string) :
  len s <= 4 -> maskSecret s = Repeat "*" (len s).
Proof.
  intros H. unfold maskSecret.
  destruct (Nat.leb_spec (len s) 4); [reflexivity | lia].
Qed.

Lemma maskSecret_long (s : string) :
  4 < len s ->
  maskSecret s = sliceTo s 2 +:+ Repeat "*" (len s - 4) +:+ sliceFrom s (len s - 2).
Proof.
  intros H. unfold maskSecret.
  destruct (Nat.leb_spec (len s) 4); [lia | reflexivity].
Qed.

Lemma len_maskSecret (s : string) : len (maskSecret s) = len s.
Proof.
  destruct (Nat.le_gt_cases (len s) 4) as [H|H].
  - rewrite maskSecret_short by exact H. apply len_Repeat_star.
  - rewrite maskSecret_long by exact H.
    rewrite !len_app, len_Repeat_star, len_sliceTo, len_sliceFrom by lia. lia.
Qed.

Lemma maskSecret_again (s : string) : maskSecret (maskSecret s) = maskSecret s.
Proof.
  destruct (Nat.le_gt_cases (len s) 4) as [H|H].
  - rewrite (maskSecret_short s H).
    rewrite maskSecret_short; rewrite len_Repeat_star; [reflexivity | exact H].
  - assert (Hl : len (maskSecret s) = len s) by apply len_maskSecret.
    rewrite (maskSecret_long (maskSecret s)) by lia.
    rewrite Hl. rewrite (maskSecret_long s H).
    assert (H2 : len (sliceTo s 2) = 2) by (apply len_sliceTo; lia).
    f_equal; [ | f_equal].
    + apply sliceTo_app_len. exact H2.
    + rewrite <- app_assoc_s. apply sliceFrom_app_len.
      rewrite len_app, len_Repeat_star, H2. lia.
Qed.

Lemma maskSecret_has_shape (s : string) : maskedShape (maskSecret s) = true.
Proof.
  unfold maskedShape. rewrite len_maskSecret.
  destruct (Nat.leb_spec (len s) 4) as [H|H].
  - rewrite maskSecret_short by exact H. apply Repeat_star_all.
  - rewrite maskSecret_long by exact H.
    assert (H2 : len (sliceTo s 2) = 2) by (apply len_sliceTo; lia).
    rewrite (sliceFrom_app_len _ _ 2 H2).
    rewrite (sliceTo_app_len _ _ (len s - 4) (len_Repeat_star _)).
    apply Repeat_star_all.
Qed.

Lemma maskSecret_fixed_iff (s : string) :
  maskSecret s = s <-> maskedShape s = true.
Proof.
  split.
  - intros H. rewrite <- H. apply maskSecret_has_shape.
  - unfold maskedShape. intros H.
    destruct (Nat.leb_spec (len s) 4) as [Hs|Hs].
    + rewrite maskSecret_short by exact Hs. symmetry. now apply allStars_Repeat.
    + rewrite maskSecret_long by exact Hs.
      apply allStars_Repeat in H.
      rewrite len_sliceTo in H by (rewrite len_sliceFrom; lia).
      rewrite <- H.
      transitivity (sliceTo s 2 +:+ sliceFrom s 2); [ | apply sliceTo_sliceFrom].
      f_equal.
      transitivity (sliceTo (sliceFrom s 2) (len s - 4)
                      +:+ sliceFrom (sliceFrom s 2) (len s - 4));
        [ | apply sliceTo_sliceFrom].
      f_equal. rewrite sliceFrom_sliceFrom. f_equal. lia.
Qed.

Lemma sliceTo_all (s : string) (n : nat) : len s <= n -> sliceTo s n = s.
Proof.
  revert s. induction n as [|n IH]; intros [|c s] H; simpl; try reflexivity.
  - rewrite len_cons in H. lia.
  - rewrite len_cons in H. rewrite IH; [reflexivity | lia].
Qed.

Lemma sliceChecked_head (s : string) :
  2 <= len s -> sliceChecked s 0 2 = Some (sliceTo s 2).
Proof.
  intros H. unfold sliceChecked.
  destruct (Z.leb_spec 2 (Z.of_nat (len s))); [reflexivity | lia].
Qed.

Lemma sliceChecked_tail (s : string) :
  2 <= len s ->
  sliceChecked s (Z.of_nat (len s) - 2) (Z.of_nat (len s))
  = Some (sliceFrom s (len s - 2)).
Proof.
  intros H. unfold sliceChecked.
  destruct (Z.leb_spec 0 (Z.of_nat (len s) - 2)); [ | lia].
  destruct (Z.leb_spec (Z.of_nat (len s) - 2) (Z.of_nat (len s))); [ | lia].
  rewrite Z.leb_refl. cbn [andb]. f_equal.
  replace (Z.to_nat (Z.of_nat (len s) - 2)) with (len s - 2) by lia.
  apply sliceTo_all. rewrite len_sliceFrom. lia.
Qed.

Lemma RepeatChecked_nat (s : string) (count : Z) :
  (0 <= count)%Z -> RepeatChecked s count = Some (Repeat s (Z.to_nat count)).
Proof.
  intros H. unfold RepeatChecked.
  destruct (Z.ltb_spec count 0); [lia | reflexivity].
Qed.

Lemma maskSecretChecked_runs (s : string) :
  maskSecretChecked s = Some (maskSecret s).
Proof.
  unfold maskSecretChecked, maskSecret. cbv zeta.
  destruct (Nat.leb_spec (len s) 4) as [H | H].
  - destruct (Z.leb_spec (Z.of_nat (len s)) 4); [ | lia].
    rewrite RepeatChecked_nat by lia. now rewrite Nat2Z.id.
  - destruct (Z.leb_spec (Z.of_nat (len s)) 4); [lia | ].
    rewrite sliceChecked_head, sliceChecked_tail, RepeatChecked_nat by lia.
    replace (Z.to_nat (Z.of_nat (len s) - 4)) with (len s - 4) by lia.
    reflexivity.
Qed.

(** C2.  [maskSecret] runs without a panic on every string and is a
    function of its argument; it keeps the length; a value of at most four
    bytes becomes that many mask bytes (the empty string stays empty); a
    longer value keeps its first two and its last two bytes, and every byte
    between them becomes the mask byte. *)
Theorem maskSecret_spec (s : string) :
  maskSecretChecked s = Some (maskSecret s)
  /\ len (maskSecret s) = len s
  /\ maskSecret EmptyString = EmptyString
  /\ (len s <= 4 -> allBytes isStar (maskSecret s) = true)
  /\ (4 < len s ->
      sliceTo (maskSecret s) 2 = sliceTo s 2
      /\ sliceFrom (maskSecret s) (len s - 2) = sliceFrom s (len s - 2)
      /\ forall i, 2 <= i < len s - 2 -> byteAt (maskSecret s) i = Some "*"%char).
Proof.
  split; [apply maskSecretChecked_runs | ].
  split; [apply len_maskSecret | ]. split; [reflexivity | ]. split.
  - intros H. rewrite maskSecret_short by exact H. apply Repeat_star_all.
  - intros H. rewrite maskSecret_long by exact H.
    assert (H2 : len (sliceTo s 2) = 2) by (apply len_sliceTo; lia).
    split; [ | split].
    + apply sliceTo_app_len. exact H2.
    + rewrite <- app_assoc_s. apply sliceFrom_app_len.
      rewrite len_app, len_Repeat_star, H2. lia.
    + intros i Hi.
      replace i with (len (sliceTo s 2) + (i - 2)) by lia.
      rewrite byteAt_app_r, byteAt_app_l by (rewrite len_Repeat_star; lia).
      destruct (byteAt_lt (Repeat "*" (len s - 4)) (i - 2)) as [c Hc];
        [rewrite len_Repeat_star; lia | ].
      rewrite Hc. f_equal.
      pose proof (proj1 (allBytes_byteAt isStar _) (Repeat_star_all (len s - 4)) _ _ Hc)
        as Hstar.
      now apply Ascii.eqb_eq in Hstar.
Qed.

Lemma maskSecret_spec_witness :
  maskSecretChecked "super_secret_password_123" = Some "su*********************23"
  /\ len (maskSecret "abc") = 3
  /\ allBytes isStar (maskSecret "abc") = true
  /\ sliceTo (maskSecret "super_secret_password_123") 2 = "su"
  /\ sliceFrom (maskSecret "super_secret_password_123") 23 = "23"
  /\ byteAt (maskSecret "super_secret_password_123") 7 = Some "*"%char.
Proof.
  destruct (maskSecret_spec "abc") as (_ & Hlen & _ & Hshort & _).
  destruct (maskSecret_spec "super_secret_password_123") as (Hrun & _ & _ & _ & Hlong).
  destruct Hlong as (Hpre & Hsuf & Hmid); [vm_compute; lia | ].
  split; [exact Hrun | ].
  split; [exact Hlen | ].
  split; [apply Hshort; vm_compute; lia | ].
  split; [exact Hpre | ].
  split; [exact Hsuf | ].
  apply Hmid. vm_compute. lia.
Defined.

(** C3, as the program has it.  Masking twice is masking once, for every
    string, because a masked string always has the masked shape; what holds
    only for strings of the masked shape is that masking leaves them as they
    are. *)
Theorem maskSecret_idempotent (s : string) :
  maskSecret (maskSecret s) = maskSecret s
  /\ maskedShape (maskSecret s) = true
  /\ (maskSecret s = s <-> maskedShape s = true).
Proof.
  split; [apply maskSecret_again | ].
  split; [apply maskSecret_has_shape | apply maskSecret_fixed_iff].
Qed.

(** C3, refuted as stated: ["hunter2"] does not have the masked shape and
    is changed by masking, yet masking it twice gives what masking it once
    gives. *)
Lemma maskSecret_twice_counterexample :
  maskedShape "hunter2" = false
  /\ maskSecret "hunter2" <> "hunter2"
  /\ maskSecret (maskSecret "hunter2") = maskSecret "hunter2".
Proof. split; [reflexivity | ]. split; [discriminate | reflexivity]. Qed.

(** ** [HasPrefix], [Index], [Contains] *)

Lemma HasPrefix_iff (s p : string) :
  HasPrefix s p = true <-> exists r, s = p +:+ r.
Proof.
  revert s. induction p as [|x p IH]; intros s.
  - destruct s; simpl; split; eauto.
  - destruct s as [|c s]; simpl.
    + split; [discriminate | intros [r Hr]; discriminate].
    + rewrite andb_true_iff, IH. split.
      * intros [Hc [r ->]]. apply Ascii.eqb_eq in Hc. subst. eauto.
      * intros [r Hr]. injection Hr as -> ->. split; [apply Ascii.eqb_refl | eauto].
Qed.

Lemma Index_unfold (s sub : string) :
  Index s sub =
  if HasPrefix s sub then 0%Z
  else match s with
       | EmptyString => (-1)%Z
       | String _ s' =>
           let i := Index s' sub in if (i <? 0)%Z then (-1)%Z else (i + 1)%Z
       end.
Proof. destruct s; reflexivity. Qed.

Lemma Index_lower (s sub : string) : (-1 <= Index s sub)%Z.
Proof.
  induction s as [|c s IH]; rewrite Index_unfold.
  - destruct (HasPrefix _ _); lia.
  - destruct (HasPrefix _ _); [lia | ]. cbv zeta.
    destruct (Z.ltb_spec (Index s sub) 0); lia.
Qed.

Lemma Index_found_iff (s sub : string) :
  (0 <= Index s sub)%Z <-> occursIn sub s.
Proof.
  induction s as [|c s IH]; rewrite Index_unfold.
  - destruct (HasPrefix EmptyString sub) eqn:Hp.
    + split; [ | lia]. intros _. apply HasPrefix_iff in Hp as [r Hr].
      exists EmptyString, r. exact Hr.
    + split; [lia | ]. intros (l & r & Hlr).
      destruct l; simpl in Hlr; [ | discriminate].
      assert (HasPrefix EmptyString sub = true) by (apply HasPrefix_iff; eauto).
      congruence.
  - destruct (HasPrefix (String c s) sub) eqn:Hp.
    + split; [ | lia]. intros _. apply HasPrefix_iff in Hp as [r Hr].
      exists EmptyString, r. exact Hr.
    + cbv zeta. destruct (Z.ltb_spec (Index s sub) 0) as [Hneg|Hpos].
      * split; [lia | ]. intros (l & r & Hlr). destruct l as [|x l]; simpl in Hlr.
        -- assert (HasPrefix (String c s) sub = true) by (apply HasPrefix_iff; eauto).
           congruence.
        -- injection Hlr as -> ->.
           assert (0 <= Index (l +:+ sub +:+ r) sub)%Z
             by (apply IH; exists l, r; reflexivity).
           lia.
      * split; [ | lia]. intros _.
        destruct (proj1 IH Hpos) as (l & r & ->).
        exists (String c l), r. reflexivity.
Qed.

Lemma Contains_iff (s sub : string) : Contains s sub = true <-> occursIn sub s.
Proof. unfold Contains. rewrite Z.leb_le. apply Index_found_iff. Qed.

Lemma containsAny_iff (upper : string) (secrets : list string) :
  containsAny upper secrets = true <-> exists m, In m secrets /\ occursIn m upper.
Proof.
  induction secrets as [|m rest IH]; simpl.
  - split; [discriminate | intros (m & [] & _)].
  - destruct (Contains upper m) eqn:Hc.
    + split; [ | reflexivity]. intros _. exists m. split; [now left | ].
      now apply Contains_iff.
    + rewrite IH. split.
      * intros (m' & Hin & Ho). exists m'. split; [now right | exact Ho].
      * intros (m' & [<- | Hin] & Ho); [ | eauto].
        apply Contains_iff in Ho. congruence.
Qed.

(** ** [ToUpper] on ASCII text *)

Lemma mapBytes_app (f : ascii -> ascii) (a b : string) :
  mapBytes f (a +:+ b) = mapBytes f a +:+ mapBytes f b.
Proof. induction a as [|x a IH]; simpl; [reflexivity | now rewrite IH]. Qed.

Lemma mapBytes_app_inv (f : ascii -> ascii) (s a' b' : string) :
  mapBytes f s = a' +:+ b' ->
  exists a b, s = a +:+ b /\ mapBytes f a = a' /\ mapBytes f b = b'.
Proof.
  revert s. induction a' as [|x a' IH]; intros s H.
  - exists EmptyString, s. auto.
  - destruct s as [|c s]; simpl in H; [discriminate | ].
    injection H as Hx H. destruct (IH s H) as (a & b & -> & Ha & Hb).
    exists (String c a), b. simpl. rewrite Ha, Hx. auto.
Qed.

Lemma N_of_ascii_lt (c : ascii) : (N_of_ascii c < 256)%N.
Proof. apply N_ascii_bounded. Qed.

Lemma letterOf_upper (c C : ascii) :
  letterOf c C = true -> isLower C = false -> upperByte c = C.
Proof.
  unfold letterOf, upperByte. rewrite orb_true_iff, !andb_true_iff.
  intros [Heq | [[Hlo Hhi] Hc]] HC.
  - apply Ascii.eqb_eq in Heq. subst. now rewrite HC.
  - apply N.leb_le in Hlo, Hhi. apply N.eqb_eq in Hc.
    assert (Hl : isLower c = true).
    { unfold isLower. rewrite andb_true_iff, !N.leb_le. lia. }
    rewrite Hl. replace (N_of_ascii c - 32)%N with (N_of_ascii C) by lia.
    apply ascii_N_embedding.
Qed.

Lemma upper_letterOf (c : ascii) : letterOf c (upperByte c) = true.
Proof.
  unfold letterOf, upperByte. destruct (isLower c) eqn:Hl.
  - unfold isLower in Hl. rewrite andb_true_iff, !N.leb_le in Hl.
    pose proof (N_of_ascii_lt c).
    rewrite N_ascii_embedding by lia.
    apply orb_true_iff. right. rewrite !andb_true_iff, !N.leb_le, N.eqb_eq. lia.
  - now rewrite Ascii.eqb_refl.
Qed.

Lemma spells_upper (x m : string) :
  spells x m = true -> allBytes (fun C => negb (isLower C)) m = true ->
  mapBytes upperByte x = m.
Proof.
  revert m. induction x as [|c x IH]; intros [|C m]; simpl; try discriminate;
    [reflexivity | ].
  rewrite !andb_true_iff, negb_true_iff. intros [Hc Hx] [HC Hm].
  rewrite (letterOf_upper c C Hc HC), (IH m Hx Hm). reflexivity.
Qed.

Lemma upper_spells (x : string) : spells x (mapBytes upperByte x) = true.
Proof.
  induction x as [|c x IH]; simpl; [reflexivity | ].
  now rewrite upper_letterOf, IH.
Qed.

Lemma ToUpper_ascii (U : Unicode) (s : string) :
  allBytes isASCIIByte s = true -> ToUpper U s = mapBytes upperByte s.
Proof. intros H. unfold ToUpper. now rewrite H. Qed.

Lemma secretVars_upper (m : string) :
  In m secretVars -> allBytes (fun C => negb (isLower C)) m = true.
Proof.
  unfold secretVars. simpl. intros H.
  repeat (destruct H as [<- | H]; [reflexivity | ]). destruct H.
Qed.

(** ** [LoadSOPSEnv] *)

Lemma mapIndex_absent (m : gmap string string) (key : string) :
  m !! key = None -> mapIndex m key = EmptyString.
Proof. intros H. unfold mapIndex. now rewrite H. Qed.

Lemma mapIndex_present (m : gmap string string) (key v : string) :
  m !! key = Some v -> mapIndex m key = v.
Proof. intros H. unfold mapIndex. now rewrite H. Qed.

Lemma schema_configOf (envMap : gmap string string) (key : string)
  (get : EnvConfig -> string) :
  In (key, get) schema -> get (configOf envMap) = mapIndex envMap key.
Proof.
  unfold schema. intros H.
  repeat (destruct H as [H | H]; [injection H as <- <-; reflexivity | ]).
  destruct H.
Qed.

(** C7.  Once decryption, the scratch file and the parser have succeeded
    with some entry map, [LoadSOPSEnv] returns a record and no error,
    whatever keys the map holds; a schema field whose key is absent is the
    empty string, and a field whose key is present is the parsed value. *)
Theorem LoadSOPSEnv_missing_keys (H : Host) (filename data : string)
  (envMap : gmap string string) :
  sopsDecrypt H filename = inl data ->
  createTemp H = None ->
  writeTemp H data = None ->
  godotenvRead H data = inl envMap ->
  LoadSOPSEnv H filename = (Some (configOf envMap), None)
  /\ forall key get, In (key, get) schema ->
       (envMap !! key = None -> get (configOf envMap) = EmptyString)
       /\ (forall v, envMap !! key = Some v -> get (configOf envMap) = v).
Proof.
  intros Hd Hc Hw Hr. split.
  - unfold LoadSOPSEnv. now rewrite Hd, Hc, Hw, Hr.
  - intros key get Hin. rewrite (schema_configOf envMap key get Hin). split.
    + apply mapIndex_absent.
    + intros v. apply mapIndex_present.
Qed.

Lemma LoadSOPSEnv_missing_keys_witness :
  LoadSOPSEnv (exampleHost "DB_HOST=localhost" exampleMap []) "config.sops.env"
  = (Some (configOf exampleMap), None)
  /\ JWTSecret (configOf exampleMap) = EmptyString
  /\ DBHost (configOf exampleMap) = "localhost".
Proof.
  destruct (LoadSOPSEnv_missing_keys (exampleHost "DB_HOST=localhost" exampleMap [])
              "config.sops.env" "DB_HOST=localhost" exampleMap)
    as [Hload Hfields]; try reflexivity.
  split; [exact Hload | ]. split.
  - destruct (Hfields "JWT_SECRET" JWTSecret) as [Habsent _]; [simpl; tauto | ].
    apply Habsent. vm_compute. reflexivity.
  - destruct (Hfields "DB_HOST" DBHost) as [_ Hpresent]; [simpl; tauto | ].
    apply Hpresent. vm_compute. reflexivity.
Defined.

(** C8.  When the decryptor fails, [LoadSOPSEnv] returns no record and the
    error that wraps the decryptor's; and in every case it returns either a
    record and no error, or an error and no record. *)
Theorem LoadSOPSEnv_decrypt_failure (H : Host) (filename : string) :
  (forall err, sopsDecrypt H filename = inr err ->
     LoadSOPSEnv H filename = (None, Some (Errorf "failed to decrypt env file" err)))
  /\ ((exists config, LoadSOPSEnv H filename = (Some config, None))
      \/ (exists err, LoadSOPSEnv H filename = (None, Some err))).
Proof.
  split.
  - intros err Hd. unfold LoadSOPSEnv. now rewrite Hd.
  - unfold LoadSOPSEnv.
    destruct (sopsDecrypt H filename) as [data | err]; [ | right; eauto].
    destruct (createTemp H) as [err | ]; [right; eauto | ].
    destruct (writeTemp H data) as [err | ]; [right; eauto | ].
    destruct (godotenvRead H data) as [envMap | err]; [left | right]; eauto.
Qed.

Lemma LoadSOPSEnv_decrypt_failure_witness :
  LoadSOPSEnv failingHost "config.sops.env"
  = (None, Some (Errorf "failed to decrypt env file" (External "exit status 128"))).
Proof.
  apply (proj1 (LoadSOPSEnv_decrypt_failure failingHost "config.sops.env")).
  reflexivity.
Defined.

(** ** [TrimSpace] on text delimited by ASCII white space *)

Lemma revBytes_app (a b : string) : revBytes (a +:+ b) = revBytes b +:+ revBytes a.
Proof.
  induction a as [|x a IH]; simpl; [now rewrite app_nil_r_s | ].
  now rewrite IH, app_assoc_s.
Qed.

Lemma revBytes_involutive (s : string) : revBytes (revBytes s) = s.
Proof.
  induction s as [|c s IH]; simpl; [reflexivity | ].
  rewrite revBytes_app, IH. reflexivity.
Qed.

Lemma allBytes_revBytes (p : ascii -> bool) (s : string) :
  allBytes p (revBytes s) = allBytes p s.
Proof.
  induction s as [|c s IH]; simpl; [reflexivity | ].
  rewrite allBytes_app, IH. simpl. rewrite andb_true_r. apply andb_comm.
Qed.

Lemma asciiSpace_ascii (c : ascii) : asciiSpace c = true -> aboveASCII c = false.
Proof. destruct c as [[] [] [] [] [] [] [] []]; vm_compute; congruence. Qed.

Lemma scanSpaces_white (ws t : string) :
  allBytes asciiSpace ws = true -> scanSpaces (ws +:+ t) = scanSpaces t.
Proof.
  induction ws as [|c ws IH]; simpl; [reflexivity | ].
  rewrite andb_true_iff. intros [Hc Hws].
  now rewrite (asciiSpace_ascii c Hc), Hc, IH.
Qed.

Lemma scanSpaces_solid (c : ascii) (t : string) :
  solidByte c = true -> scanSpaces (String c t) = Stopped (String c t).
Proof.
  unfold solidByte, isASCIIByte. rewrite andb_true_iff, !negb_true_iff.
  intros [Ha Hs]. simpl. now rewrite Ha, Hs.
Qed.

Lemma TrimSpace_solid (U : Unicode) (ws1 t ws2 : string) :
  allBytes asciiSpace ws1 = true ->
  allBytes asciiSpace ws2 = true ->
  solidEnds t = true ->
  TrimSpace U (ws1 +:+ t +:+ ws2) = t.
Proof.
  intros H1 H2 Ht. unfold TrimSpace. rewrite (scanSpaces_white ws1 _ H1).
  destruct t as [|c t].
  - simpl. rewrite <- (app_nil_r_s ws2), (scanSpaces_white ws2 _ H2). reflexivity.
  - unfold solidEnds in Ht. apply andb_true_iff in Ht as [Hc Hd].
    change (String c t +:+ ws2) with (String c (t +:+ ws2)).
    rewrite (scanSpaces_solid c _ Hc).
    change (String c (t +:+ ws2)) with (String c t +:+ ws2).
    rewrite revBytes_app, scanSpaces_white by now rewrite allBytes_revBytes.
    destruct (revBytes (String c t)) as [|d r] eqn:Hr; [discriminate | ].
    rewrite (scanSpaces_solid d r Hd), <- Hr. apply revBytes_involutive.
Qed.

(** ** Cutting a line at its first ['='] *)

Lemma HasPrefix_eq (c : ascii) (s : string) :
  HasPrefix (String c s) "=" = isEq c.
Proof. unfold isEq. simpl. apply andb_true_r. Qed.

Lemma cutAtEq_Index (s : string) :
  match cutAtEq s with
  | Some (k, v) => Index s "=" = Z.of_nat (len k) /\ s = k +:+ "=" +:+ v
  | None => Index s "=" = (-1)%Z
  end.
Proof.
  induction s as [|c s IH]; [reflexivity | ].
  rewrite Index_unfold, HasPrefix_eq. simpl cutAtEq.
  destruct (isEq c) eqn:Hc.
  - split; [reflexivity | ]. unfold isEq in Hc. apply Ascii.eqb_eq in Hc. now subst.
  - cbv zeta. destruct (cutAtEq s) as [[k v] | ].
    + destruct IH as [Hi ->]. rewrite Hi. split; [ | reflexivity].
      destruct (Z.ltb_spec (Z.of_nat (len k)) 0); [lia | ]. rewrite len_cons. lia.
    + rewrite IH. reflexivity.
Qed.

Lemma cutAtEq_first (k v : string) :
  allBytes (fun c => negb (isEq c)) k = true ->
  cutAtEq (k +:+ "=" +:+ v) = Some (k, v).
Proof.
  induction k as [|c k IH]; simpl in *; [reflexivity | ].
  rewrite andb_true_iff, negb_true_iff. intros [Hc Hk]. now rewrite Hc, IH.
Qed.

Lemma cutAtEq_none (s : string) :
  allBytes (fun c => negb (isEq c)) s = true -> cutAtEq s = None.
Proof.
  induction s as [|c s IH]; simpl; [reflexivity | ].
  rewrite andb_true_iff, negb_true_iff. intros [Hc Hs]. now rewrite Hc, IH.
Qed.

Lemma SplitN_at_eq (s : string) :
  s <> EmptyString ->
  SplitN s "=" 2 = match cutAtEq s with
                   | Some (k, v) => [k; v]
                   | None => [s]
                   end.
Proof.
  intros Hs. unfold SplitN.
  assert (Hlen : (len s + 1 <? 2) = false).
  { apply Nat.ltb_ge. destruct s; [congruence | rewrite len_cons; lia]. }
  rewrite Hlen. simpl genSplitLoop.
  pose proof (cutAtEq_Index s) as Hcut.
  destruct (cutAtEq s) as [[k v] | ].
  - destruct Hcut as [Hi Heq]. rewrite Hi.
    destruct (Z.ltb_spec (Z.of_nat (len k)) 0); [lia | ].
    rewrite Nat2Z.id. rewrite Heq at 1 2. f_equal.
    + apply sliceTo_app.
    + f_equal. rewrite <- app_assoc_s. apply sliceFrom_app_len.
      rewrite len_app. reflexivity.
  - rewrite Hcut. reflexivity.
Qed.

(** ** The export loop *)

Lemma exportLoop_cons (U : Unicode) (H : Host) (text : string)
  (rest : list string) (p : Process) :
  exportLoop U H (text :: rest) p = loopStep U H text (exportLoop U H rest) p.
Proof.
  unfold loopStep, entryOf. cbn [exportLoop].
  destruct (TrimSpace U text) as [|c t] eqn:Ht; [reflexivity | ].
  change (String.eqb (String c t) EmptyString) with false.
  rewrite orb_false_l.
  change (HasPrefix (String c t) "#") with (Ascii.eqb c "#"%char && true).
  rewrite andb_true_r.
  destruct (Ascii.eqb c "#"%char); [reflexivity | ].
  rewrite SplitN_at_eq by discriminate.
  destruct (cutAtEq (String c t)) as [[k v] | ]; reflexivity.
Qed.

Lemma entriesOf_cons (U : Unicode) (text : string) (rest : list string) :
  entriesOf U (text :: rest)
  = match entryOf U text with
    | Some e => e :: entriesOf U rest
    | None => entriesOf U rest
    end.
Proof. reflexivity. Qed.

Lemma entriesOf_app (U : Unicode) (a b : list string) :
  entriesOf U (a ++ b) = entriesOf U a ++ entriesOf U b.
Proof.
  induction a as [|text a IH]; [reflexivity | ].
  change ((text :: a) ++ b) with (text :: (a ++ b)).
  rewrite !entriesOf_cons, IH. destruct (entryOf U text); reflexivity.
Qed.

Lemma Setenv_accepted (H : Host) (k v : string) (p : Process) :
  setenvCheck H k v = None ->
  Setenv H k v p
  = ({| environ := <[k := v]> (environ p);
        setenvCalls := setenvCalls p ++ [(k, v)] |}, None).
Proof. intros Hc. unfold Setenv. now rewrite Hc. Qed.

Lemma Setenv_rejected (H : Host) (k v : string) (p : Process) (err : error) :
  setenvCheck H k v = Some err ->
  Setenv H k v p
  = ({| environ := environ p; setenvCalls := setenvCalls p ++ [(k, v)] |}, Some err).
Proof. intros Hc. unfold Setenv. now rewrite Hc. Qed.

Lemma afterAssignments_nil (p : Process) : afterAssignments [] p = p.
Proof. destruct p. unfold afterAssignments. simpl. now rewrite app_nil_r. Qed.

Lemma exportLoop_app (U : Unicode) (H : Host) (pre rest : list string) (p : Process) :
  allAccepted H (entriesOf U pre) ->
  exportLoop U H (pre ++ rest) p
  = exportLoop U H rest (afterAssignments (entriesOf U pre) p).
Proof.
  revert p. induction pre as [|text pre IH]; intros p Hacc.
  - simpl. now rewrite afterAssignments_nil.
  - change ((text :: pre) ++ rest) with (text :: (pre ++ rest)).
    rewrite exportLoop_cons. unfold loopStep.
    rewrite entriesOf_cons in Hacc |- *.
    destruct (entryOf U text) as [[k v] | ]; [ | now apply IH].
    apply Forall_cons in Hacc as [Hkv Hacc]. simpl in Hkv.
    rewrite (Setenv_accepted H k v p Hkv), (IH _ Hacc).
    unfold afterAssignments. simpl. now rewrite <- app_assoc.
Qed.

Lemma exportLoop_accepted (U : Unicode) (H : Host) (lines : list string) (p : Process) :
  allAccepted H (entriesOf U lines) ->
  exportLoop U H lines p = (afterAssignments (entriesOf U lines) p, None).
Proof.
  intros Hacc. rewrite <- (app_nil_r lines) at 1.
  now rewrite (exportLoop_app U H lines [] p Hacc).
Qed.

Lemma assignAll_lookup (entries : list (string * string))
  (env : gmap string string) (key : string) :
  assignAll entries env !! key
  = match lastValue key entries with
    | Some v => Some v
    | None => env !! key
    end.
Proof.
  revert env. induction entries as [|[k v] rest IH]; intros env; [reflexivity | ].
  change (assignAll ((k, v) :: rest) env) with (assignAll rest (<[k := v]> env)).
  rewrite IH. cbn [lastValue].
  destruct (lastValue key rest); [reflexivity | ].
  destruct (String.eqb_spec k key) as [-> | Hne].
  - apply lookup_insert_eq.
  - now apply lookup_insert_ne.
Qed.

Lemma entryOf_trimmed (U : Unicode) (text : string) :
  TrimSpace U text <> EmptyString ->
  HasPrefix (TrimSpace U text) "#" = false ->
  entryOf U text
  = match cutAtEq (TrimSpace U text) with
    | Some (k, v) => Some (TrimSpace U k, TrimSpace U v)
    | None => None
    end.
Proof.
  unfold entryOf. destruct (TrimSpace U text) as [|c t]; [congruence | ].
  intros _ Hp.
  change (HasPrefix (String c t) "#") with (Ascii.eqb c "#"%char && true) in Hp.
  rewrite andb_true_r in Hp. now rewrite Hp.
Qed.

(** ** How [entryOf] reads a line delimited by ASCII white space *)

Lemma white_no_eq (ws : string) :
  allBytes asciiSpace ws = true -> allBytes (fun c => negb (isEq c)) ws = true.
Proof.
  induction ws as [|c ws IH]; [reflexivity | ].
  cbn [allBytes]. rewrite !andb_true_iff. intros [Hc Hws]. split; [ | now apply IH].
  revert Hc. destruct c as [[] [] [] [] [] [] [] []]; vm_compute; congruence.
Qed.

Lemma solidEnds_cons (c : ascii) (t : string) :
  solidEnds (String c t)
  = solidByte c
    && match revBytes (String c t) with
       | String d _ => solidByte d
       | EmptyString => false
       end.
Proof. reflexivity. Qed.

Lemma solidEnds_join (a m b : string) :
  a <> EmptyString -> b <> EmptyString ->
  solidEnds a = true -> solidEnds b = true ->
  solidEnds (a +:+ m +:+ b) = true.
Proof.
  destruct a as [|c a]; [congruence | ]. destruct b as [|e b]; [congruence | ].
  intros _ _ Ha Hb. rewrite solidEnds_cons in Ha, Hb.
  apply andb_true_iff in Ha as [Hc _]. apply andb_true_iff in Hb as [_ Hd].
  change (String c a +:+ m +:+ String e b) with (String c (a +:+ m +:+ String e b)).
  rewrite solidEnds_cons, Hc. cbn [andb].
  change (String c (a +:+ m +:+ String e b)) with (String c a +:+ m +:+ String e b).
  rewrite !revBytes_app.
  destruct (revBytes (String e b)) as [|d r]; [discriminate | exact Hd].
Qed.

Lemma TrimSpace_left (U : Unicode) (ws t : string) :
  allBytes asciiSpace ws = true -> solidEnds t = true -> TrimSpace U (ws +:+ t) = t.
Proof.
  intros Hws Ht. rewrite <- (app_nil_r_s t) at 1.
  now apply TrimSpace_solid.
Qed.

Lemma TrimSpace_right (U : Unicode) (t ws : string) :
  allBytes asciiSpace ws = true -> solidEnds t = true -> TrimSpace U (t +:+ ws) = t.
Proof. intros Hws Ht. now apply (TrimSpace_solid U EmptyString t ws). Qed.

Lemma entryOf_blank (U : Unicode) (text : string) :
  allBytes asciiSpace text = true -> entryOf U text = None.
Proof.
  intros Hw. unfold entryOf.
  rewrite <- (app_nil_r_s text), (TrimSpace_left U text EmptyString Hw); reflexivity.
Qed.

Lemma entryOf_comment (U : Unicode) (ws1 body ws2 : string) :
  allBytes asciiSpace ws1 = true -> allBytes asciiSpace ws2 = true ->
  solidEnds (String "#"%char body) = true ->
  entryOf U (ws1 +:+ String "#"%char body +:+ ws2) = None.
Proof.
  intros H1 H2 Hs. unfold entryOf.
  now rewrite (TrimSpace_solid U ws1 (String "#"%char body) ws2 H1 H2 Hs).
Qed.

Lemma entryOf_cut (U : Unicode) (ws1 k ws2 rest ws4 : string) :
  allBytes asciiSpace ws1 = true -> allBytes asciiSpace ws2 = true ->
  allBytes asciiSpace ws4 = true ->
  k <> EmptyString -> solidEnds k = true ->
  allBytes (fun c => negb (isEq c)) k = true ->
  HasPrefix k "#" = false ->
  solidEnds (k +:+ ws2 +:+ "=" +:+ rest) = true ->
  entryOf U (ws1 +:+ (k +:+ ws2 +:+ "=" +:+ rest) +:+ ws4)
  = Some (k, TrimSpace U rest).
Proof.
  intros H1 H2 H4 Hk Hks Hkeq Hkc Hsolid.
  assert (Hne : k +:+ ws2 +:+ "=" +:+ rest <> EmptyString)
    by (destruct k; [congruence | discriminate]).
  assert (Hc : HasPrefix (k +:+ ws2 +:+ "=" +:+ rest) "#" = false)
    by (destruct k; [congruence | exact Hkc]).
  pose proof (TrimSpace_solid U ws1 _ ws4 H1 H4 Hsolid) as Ht.
  rewrite entryOf_trimmed; rewrite Ht; [ | exact Hne | exact Hc].
  rewrite <- (app_assoc_s k ws2), cutAtEq_first
    by (rewrite allBytes_app, Hkeq; now apply white_no_eq).
  now rewrite (TrimSpace_right U k ws2 H2 Hks).
Qed.

Lemma entryOf_assignment (U : Unicode) (ws1 k ws2 ws3 v ws4 : string) :
  allBytes asciiSpace ws1 = true -> allBytes asciiSpace ws2 = true ->
  allBytes asciiSpace ws3 = true -> allBytes asciiSpace ws4 = true ->
  k <> EmptyString -> solidEnds k = true -> solidEnds v = true ->
  allBytes (fun c => negb (isEq c)) k = true ->
  HasPrefix k "#" = false ->
  entryOf U (ws1 +:+ k +:+ ws2 +:+ "=" +:+ ws3 +:+ v +:+ ws4) = Some (k, v).
Proof.
  intros H1 H2 H3 H4 Hk Hks Hvs Hkeq Hkc.
  destruct v as [|e v].
  - transitivity (entryOf U (ws1 +:+ (k +:+ ws2 +:+ "=" +:+ EmptyString)
                                +:+ (ws3 +:+ ws4))).
    { f_equal. now rewrite !app_assoc_s. }
    rewrite entryOf_cut; try assumption; [reflexivity | | ].
    + now rewrite allBytes_app, H3, H4.
    + apply (solidEnds_join k ws2 "="); [exact Hk | discriminate | exact Hks | reflexivity].
  - transitivity (entryOf U (ws1 +:+ (k +:+ ws2 +:+ "=" +:+ (ws3 +:+ String e v))
                                +:+ ws4)).
    { f_equal. now rewrite !app_assoc_s. }
    rewrite entryOf_cut; try assumption.
    + now rewrite (TrimSpace_left U ws3 (String e v) H3 Hvs).
    + change (k +:+ ws2 +:+ "=" +:+ ws3 +:+ String e v)
        with (k +:+ ws2 +:+ String "="%char ws3 +:+ String e v).
      rewrite <- (app_assoc_s ws2).
      apply solidEnds_join; [exact Hk | discriminate | exact Hks | exact Hvs].
Qed.

(** C9.  When the lines before position [i] are all assigned and the
    platform rejects the assignment of line [i], [LoadSOPSEnvToSystem]
    returns the error wrapped as "failed to set env var <key>", having made
    the assignments of the earlier lines and one attempt at the rejected one:
    the environment is the one the earlier lines left, every variable they
    set keeps its value, and nothing depends on the lines after [i]. *)
Theorem export_stops_at_failure (U : Unicode) (H : Host) (filename data : string)
  (pre : list string) (text : string) (post : list string)
  (scanErr : option error) (p : Process) (k v : string) (err : error) :
  sopsDecrypt H filename = inl data ->
  scanLines H data = (pre ++ text :: post, scanErr) ->
  allAccepted H (entriesOf U pre) ->
  entryOf U text = Some (k, v) ->
  setenvCheck H k v = Some err ->
  exists p',
    LoadSOPSEnvToSystem U H filename p
    = (p', Some (Errorf ("failed to set env var " +:+ k) err))
    /\ environ p' = assignAll (entriesOf U pre) (environ p)
    /\ setenvCalls p' = setenvCalls p ++ entriesOf U pre ++ [(k, v)]
    /\ forall key val,
         lastValue key (entriesOf U pre) = Some val -> environ p' !! key = Some val.
Proof.
  intros Hd Hs Hacc Hentry Hrej.
  exists {| environ := assignAll (entriesOf U pre) (environ p);
            setenvCalls := setenvCalls p ++ entriesOf U pre ++ [(k, v)] |}.
  unfold LoadSOPSEnvToSystem. rewrite Hd, Hs.
  rewrite (exportLoop_app U H pre (text :: post) p Hacc), exportLoop_cons.
  unfold loopStep. rewrite Hentry, (Setenv_rejected H k v _ err Hrej).
  cbn [afterAssignments environ setenvCalls]. rewrite <- app_assoc.
  repeat split. intros key val Hlast. cbn [environ].
  now rewrite assignAll_lookup, Hlast.
Qed.

Lemma export_stops_at_failure_witness :
  exists p',
    LoadSOPSEnvToSystem exampleUnicode
      (exampleHost "ignored" ∅ ["A=1"; "=oops"; "B=2"]) "config.sops.env" emptyProcess
    = (p', Some (Errorf "failed to set env var "
                   (External "setenv: invalid argument")))
    /\ setenvCalls p' = [("A", "1"); (EmptyString, "oops")]
    /\ environ p' !! "A" = Some "1".
Proof.
  destruct (export_stops_at_failure exampleUnicode
              (exampleHost "ignored" ∅ ["A=1"; "=oops"; "B=2"])
              "config.sops.env" "ignored" ["A=1"] "=oops" ["B=2"] None emptyProcess
              EmptyString "oops" (External "setenv: invalid argument"))
    as (p' & Hrun & _ & Hcalls & Hkept).
  - reflexivity.
  - reflexivity.
  - vm_compute. repeat constructor.
  - reflexivity.
  - reflexivity.
  - exists p'. split; [exact Hrun | ]. split; [exact Hcalls | ].
    apply Hkept. reflexivity.
Defined.

(** C10.  A line that is neither blank nor a comment after trimming is cut
    at its first ['=']: when the trimmed line is [k], ['='], [v] with no
    ['='] in [k], the loop assigns the trimmed [v], with any further ['=']
    it holds, to the trimmed [k]; when the trimmed line has no ['='], the
    loop passes to the next line with the process unchanged and no error. *)
Theorem export_cuts_at_first_eq (U : Unicode) (H : Host) (text : string)
  (rest : list string) (p : Process) :
  TrimSpace U text <> EmptyString ->
  HasPrefix (TrimSpace U text) "#" = false ->
  (forall k v,
     TrimSpace U text = k +:+ "=" +:+ v ->
     allBytes (fun c => negb (isEq c)) k = true ->
     exportLoop U H (text :: rest) p
     = match Setenv H (TrimSpace U k) (TrimSpace U v) p with
       | (p', Some err) =>
           (p', Some (Errorf ("failed to set env var " +:+ TrimSpace U k) err))
       | (p', None) => exportLoop U H rest p'
       end)
  /\ (allBytes (fun c => negb (isEq c)) (TrimSpace U text) = true ->
      exportLoop U H (text :: rest) p = exportLoop U H rest p).
Proof.
  intros Hne Hp. split.
  - intros k v Ht Hk. rewrite exportLoop_cons. unfold loopStep.
    rewrite (entryOf_trimmed U text Hne Hp), Ht, (cutAtEq_first k v Hk).
    reflexivity.
  - intros Hnone. rewrite exportLoop_cons. unfold loopStep.
    rewrite (entryOf_trimmed U text Hne Hp), (cutAtEq_none _ Hnone).
    reflexivity.
Qed.

Lemma export_cuts_at_first_eq_witness :
  environ (exportLoop exampleUnicode (exampleHost "ignored" ∅ [])
             [" KEY = V1=V2 "] emptyProcess).1 !! "KEY" = Some "V1=V2"
  /\ exportLoop exampleUnicode (exampleHost "ignored" ∅ [])
       ["no separator"] emptyProcess = (emptyProcess, None).
Proof.
  split.
  - rewrite (proj1 (export_cuts_at_first_eq exampleUnicode
                      (exampleHost "ignored" ∅ []) " KEY = V1=V2 " [] emptyProcess
                      ltac:(discriminate) ltac:(reflexivity))
               "KEY " " V1=V2" ltac:(reflexivity) ltac:(reflexivity)).
    reflexivity.
  - rewrite (proj2 (export_cuts_at_first_eq exampleUnicode
                      (exampleHost "ignored" ∅ []) "no separator" [] emptyProcess
                      ltac:(discriminate) ltac:(reflexivity))
               ltac:(reflexivity)).
    reflexivity.
Defined.

(** ** The reports *)

(** C1, as the program has it.  [PrintConfig] writes exactly one line for
    every field of the record.  For every field but [REDIS_URL] the value
    is masked when [isSecret] classifies the field's name as sensitive and
    written as it is otherwise; the value of [REDIS_URL] is written masked. *)
Theorem PrintConfig_masking (U : Unicode) (config : EnvConfig) (name : string)
  (get : EnvConfig -> string) :
  In (name, get) schema ->
  linesLabelled (recordLabel name) (PrintConfig config)
  = [recordLine name
       (if String.eqb name "REDIS_URL" then maskSecret (get config)
        else shownAs (isSecret U name) (get config))].
Proof.
  unfold schema. intros H.
  repeat (destruct H as [H | H]; [injection H as <- <-; vm_compute; reflexivity | ]).
  destruct H.
Qed.

Lemma PrintConfig_masking_witness :
  linesLabelled (recordLabel "DB_PASSWORD") (PrintConfig (configOf exampleMap))
  = [recordLine "DB_PASSWORD" "su*********************23"]
  /\ linesLabelled (recordLabel "DB_HOST") (PrintConfig (configOf exampleMap))
     = [recordLine "DB_HOST" "localhost"].
Proof.
  split.
  - rewrite (PrintConfig_masking exampleUnicode (configOf exampleMap)
               "DB_PASSWORD" DBPassword); [reflexivity | simpl; tauto].
  - rewrite (PrintConfig_masking exampleUnicode (configOf exampleMap)
               "DB_HOST" DBHost); [reflexivity | simpl; tauto].
Defined.

(** C1, refuted as stated: [REDIS_URL] is a field of the record that
    [isSecret] does not classify as sensitive, and [PrintConfig] writes its
    value masked; the line with the value as it is is not written. *)
Lemma PrintConfig_redis_url_counterexample :
  In ("REDIS_URL", RedisURL) schema
  /\ isSecret exampleUnicode "REDIS_URL" = false
  /\ RedisURL redisConfig = "redis://localhost:6379"
  /\ linesLabelled (recordLabel "REDIS_URL") (PrintConfig redisConfig)
     = [recordLine "REDIS_URL" "re******************79"]
  /\ ~ In (recordLine "REDIS_URL"
             (shownAs (isSecret exampleUnicode "REDIS_URL") (RedisURL redisConfig)))
          (PrintConfig redisConfig).
Proof.
  split; [simpl; tauto | ]. split; [reflexivity | ]. split; [reflexivity | ].
  split; [reflexivity | ].
  vm_compute. intros H.
  repeat (destruct H as [H | H]; [discriminate H | ]). exact H.
Qed.

Lemma printVars_renderVar (U : Unicode) (p : Process) (names : list string) :
  printVars U p names = omap (renderVar U p) names.
Proof.
  induction names as [|name rest IH]; [reflexivity | ].
  cbn [printVars omap list_omap]. unfold renderVar at 1, shownAs. cbv zeta.
  rewrite <- IH.
  destruct (String.eqb (Getenv p name) EmptyString); [reflexivity | ].
  cbn [negb]. destruct (isSecret U name); reflexivity.
Qed.

Lemma HasPrefix_app (a s p : string) :
  HasPrefix (a +:+ s) (a +:+ p) = HasPrefix s p.
Proof.
  induction a as [|c a IH]; simpl; [reflexivity | ].
  now rewrite Ascii.eqb_refl, IH.
Qed.

Lemma HasPrefix_cons (d c : ascii) (s p : string) :
  HasPrefix (String d s) (String c p) = Ascii.eqb d c && HasPrefix s p.
Proof. reflexivity. Qed.

Lemma label_same_name (V name rest : string) :
  allBytes (fun c => negb (isEq c)) V = true ->
  allBytes (fun c => negb (isEq c)) name = true ->
  HasPrefix (V +:+ "=" +:+ rest) (name +:+ "=") = true -> V = name.
Proof.
  revert V. induction name as [|c name IH]; intros [|d V] HV Hn Hp.
  - reflexivity.
  - change (HasPrefix (String d (V +:+ "=" +:+ rest)) (String "="%char EmptyString) = true) in Hp.
    rewrite HasPrefix_cons in Hp. apply andb_true_iff in Hp as [Hp _].
    cbn [allBytes] in HV. apply andb_true_iff in HV as [Hd _].
    unfold isEq in Hd. rewrite Hp in Hd. discriminate.
  - change (HasPrefix (String "="%char rest) (String c (name +:+ "=")) = true) in Hp.
    rewrite HasPrefix_cons in Hp. apply andb_true_iff in Hp as [Hp _].
    apply Ascii.eqb_eq in Hp. subst c.
    cbn [allBytes] in Hn. apply andb_true_iff in Hn as [Hc _]. discriminate.
  - change (HasPrefix (String d (V +:+ "=" +:+ rest)) (String c (name +:+ "=")) = true) in Hp.
    rewrite HasPrefix_cons in Hp. apply andb_true_iff in Hp as [Hdc Hp].
    apply Ascii.eqb_eq in Hdc. subst d.
    cbn [allBytes] in HV, Hn.
    apply andb_true_iff in HV as [_ HV]. apply andb_true_iff in Hn as [_ Hn].
    f_equal. now apply IH.
Qed.

Lemma ourVars_no_eq (name : string) :
  In name ourVars -> allBytes (fun c => negb (isEq c)) name = true.
Proof.
  unfold ourVars. intros H.
  repeat (destruct H as [H | H]; [subst name; reflexivity | ]).
  destruct H.
Qed.

Lemma printVars_no_line (U : Unicode) (p : Process) (name : string)
  (names : list string) :
  (forall V, In V names -> allBytes (fun c => negb (isEq c)) V = true) ->
  allBytes (fun c => negb (isEq c)) name = true ->
  Getenv p name = EmptyString ->
  linesLabelled (varLabel name) (printVars U p names) = [].
Proof.
  intros Hnames Hname Hempty.
  induction names as [|V rest IH]; [reflexivity | ].
  assert (IH' : linesLabelled (varLabel name) (printVars U p rest) = [])
    by (apply IH; intros W HW; apply Hnames; now right).
  cbn [printVars].
  destruct (String.eqb_spec (Getenv p V) EmptyString) as [He | Hne];
    [exact IH' | ].
  cbn [negb]. unfold linesLabelled in *. cbn [List.filter]. rewrite IH'.
  assert (Hmiss : forall x, HasPrefix (PrintfVar V x) (varLabel name) = false).
  { intros x. destruct (HasPrefix (PrintfVar V x) (varLabel name)) eqn:Hp;
      [ | reflexivity].
    unfold PrintfVar, varLabel in Hp. rewrite HasPrefix_app in Hp.
    apply label_same_name in Hp; [ | apply Hnames; now left | exact Hname].
    subst V. congruence. }
  destruct (isSecret U V); now rewrite Hmiss.
Qed.

Lemma linesLabelled_skip (label line : string) (out : list string) :
  HasPrefix line label = false ->
  linesLabelled label (line :: out) = linesLabelled label out.
Proof. intros Hp. unfold linesLabelled. cbn [List.filter]. now rewrite Hp. Qed.

Lemma PrintConfig_empty_field (config : EnvConfig) (name : string)
  (get : EnvConfig -> string) :
  In (name, get) schema ->
  get config = EmptyString ->
  linesLabelled (recordLabel name) (PrintConfig config)
  = [recordLine name EmptyString].
Proof.
  unfold schema. intros H Hget.
  repeat (destruct H as [H | H];
          [injection H as <- <-; unfold PrintConfig; rewrite Hget;
           vm_compute; reflexivity | ]).
  destruct H.
Qed.

Lemma schema_names : map fst schema = ourVars.
Proof. reflexivity. Qed.

Lemma exportLoop_untouched (U : Unicode) (H : Host) (lines : list string)
  (p : Process) (name : string) :
  allAccepted H (entriesOf U lines) ->
  lastValue name (entriesOf U lines) = None ->
  Getenv (exportLoop U H lines p).1 name = Getenv p name.
Proof.
  intros Hacc Hlast. rewrite (exportLoop_accepted U H lines p Hacc).
  unfold Getenv. cbn [fst afterAssignments environ].
  now rewrite assignAll_lookup, Hlast.
Qed.

(** C6, as the program has it.  [PrintSystemEnvVars] writes its two header
    lines and then, for the names of the allow-list in order, nothing for a
    name whose value in the environment is empty and otherwise the line of
    the name, with the value masked when [isSecret] classifies the name and
    as it is otherwise.  For a field that no line of the exported document
    names and that the environment did not hold before the export, this
    report has no line, while the typed-record report of a record loaded
    from entries without the field has the field's line with an empty
    value. *)
Theorem env_table_rendering (U : Unicode) (H : Host) (lines : list string)
  (p : Process) (envMap : gmap string string) (name : string)
  (get : EnvConfig -> string) :
  In (name, get) schema ->
  allAccepted H (entriesOf U lines) ->
  lastValue name (entriesOf U lines) = None ->
  envMap !! name = None ->
  Getenv p name = EmptyString ->
  (forall q,
     PrintSystemEnvVars U q
     = Println (nl +:+ "🌍 Environment Variables (loaded into system):")
       :: Println "================================================"
       :: omap (renderVar U q) ourVars)
  /\ linesLabelled (varLabel name)
       (PrintSystemEnvVars U (exportLoop U H lines p).1) = []
  /\ linesLabelled (recordLabel name) (PrintConfig (configOf envMap))
     = [recordLine name (maskSecret EmptyString)].
Proof.
  intros Hin Hacc Hlast Habsent Hunset.
  assert (Hour : In name ourVars).
  { rewrite <- schema_names. change name with (fst (name, get)). now apply in_map. }
  split; [ | split].
  - intros q. unfold PrintSystemEnvVars. now rewrite printVars_renderVar.
  - unfold PrintSystemEnvVars.
    rewrite !linesLabelled_skip by reflexivity.
    apply (printVars_no_line U _ name ourVars ourVars_no_eq (ourVars_no_eq name Hour)).
    now rewrite (exportLoop_untouched U H lines p name Hacc Hlast).
  - apply (PrintConfig_empty_field (configOf envMap) name get Hin).
    now rewrite (schema_configOf envMap name get Hin), (mapIndex_absent envMap name Habsent).
Qed.

Lemma env_table_rendering_witness :
  linesLabelled (varLabel "JWT_SECRET")
    (PrintSystemEnvVars exampleUnicode
       (exportLoop exampleUnicode (exampleHost "ignored" ∅ exampleLines)
          exampleLines emptyProcess).1) = []
  /\ linesLabelled (recordLabel "JWT_SECRET") (PrintConfig (configOf exampleMap))
     = [recordLine "JWT_SECRET" EmptyString].
Proof.
  destruct (env_table_rendering exampleUnicode (exampleHost "ignored" ∅ exampleLines)
              exampleLines emptyProcess exampleMap "JWT_SECRET" JWTSecret)
    as (_ & Htable & Hrecord).
  - simpl. tauto.
  - vm_compute. repeat constructor.
  - reflexivity.
  - vm_compute. reflexivity.
  - reflexivity.
  - split; [exact Htable | exact Hrecord].
Defined.

(** C6, refuted as stated: no line of the exported document names
    [JWT_SECRET], the export succeeds, and the environment-table report
    still has a line for [JWT_SECRET], because the process had inherited a
    value for it. *)
Lemma env_table_inherited_counterexample :
  lastValue "JWT_SECRET" (entriesOf exampleUnicode exampleLines) = None
  /\ (LoadSOPSEnvToSystem exampleUnicode (exampleHost "ignored" ∅ exampleLines)
        "config.sops.env" inheritedProcess).2 = None
  /\ linesLabelled (varLabel "JWT_SECRET")
       (PrintSystemEnvVars exampleUnicode
          (LoadSOPSEnvToSystem exampleUnicode (exampleHost "ignored" ∅ exampleLines)
             "config.sops.env" inheritedProcess).1)
     = [PrintfVar "JWT_SECRET" "to*****et"].
Proof. split; [reflexivity | ]. split; [reflexivity | ]. vm_compute. reflexivity. Qed.

(** * Part VII: further properties *)

(** ** What [maskSecret] and [isSecret] let through *)

(** X1.  The masked form of a value depends on its length only, when the
    value has at most four bytes, and on its length, its first two and its
    last two bytes otherwise: two values that agree on these are masked
    alike, whatever lies between. *)
Theorem maskSecret_depends_on_ends (s t : string) :
  len s = len t ->
  (4 < len s ->
   sliceTo s 2 = sliceTo t 2 /\ sliceFrom s (len s - 2) = sliceFrom t (len t - 2)) ->
  maskSecret s = maskSecret t.
Proof.
  intros Hlen Hends.
  destruct (Nat.le_gt_cases (len s) 4) as [Hs | Hs].
  - rewrite (maskSecret_short s Hs), (maskSecret_short t) by lia. now rewrite Hlen.
  - destruct (Hends Hs) as [Hhead Htail].
    rewrite (maskSecret_long s Hs), (maskSecret_long t) by lia.
    now rewrite Hhead, Htail, Hlen.
Qed.

Lemma maskSecret_depends_on_ends_witness :
  maskSecret "super_secret_password_123" = maskSecret "su-an-other-interior---23".
Proof.
  apply maskSecret_depends_on_ends; [reflexivity | ].
  intros _. split; reflexivity.
Defined.

Lemma occursIn_app (sub s a b : string) :
  occursIn sub s -> occursIn sub (a +:+ s +:+ b).
Proof.
  intros (l & r & ->). exists (a +:+ l), (r +:+ b). now rewrite !app_assoc_s.
Qed.

(** X2.  A name that contains a sensitive name is sensitive: on ASCII
    names, putting text before and after a name that [isSecret] accepts
    gives a name that [isSecret] accepts. *)
Theorem isSecret_extends (U : Unicode) (a n b : string) :
  allBytes isASCIIByte (a +:+ n +:+ b) = true ->
  isSecret U n = true ->
  isSecret U (a +:+ n +:+ b) = true.
Proof.
  intros Hascii Hn.
  pose proof Hascii as Hparts. rewrite !allBytes_app, !andb_true_iff in Hparts.
  destruct Hparts as (_ & Hna & _).
  unfold isSecret in *. rewrite ToUpper_ascii in * by assumption.
  apply containsAny_iff in Hn as (m & Hin & Hocc).
  apply containsAny_iff. exists m. split; [exact Hin | ].
  rewrite !mapBytes_app. now apply occursIn_app.
Qed.

Lemma isSecret_extends_witness :
  isSecret exampleUnicode "monkey_count" = true.
Proof.
  apply (isSecret_extends exampleUnicode "mon" "key" "_count"); reflexivity.
Defined.

(** ** The field mapper *)

Lemma mapIndex_agree (m1 m2 : gmap string string) (key : string) :
  m1 !! key = m2 !! key -> mapIndex m1 key = mapIndex m2 key.
Proof. intros H. unfold mapIndex. now rewrite H. Qed.

(** X3.  The record depends on the 23 keys of the schema only: two entry
    maps that agree on them give the same record, so a key outside the
    schema, present or not, changes nothing. *)
Theorem configOf_reads_schema_keys_only (m1 m2 : gmap string string) :
  (forall name, In name ourVars -> m1 !! name = m2 !! name) ->
  configOf m1 = configOf m2.
Proof.
  intros H. unfold configOf.
  repeat match goal with
         | |- context [mapIndex m1 ?k] =>
             rewrite (mapIndex_agree m1 m2 k) by (apply H; vm_compute; tauto)
         end.
  reflexivity.
Qed.

Lemma configOf_reads_schema_keys_only_witness :
  configOf (<["SENTRY_DSN" := "https://key@sentry.invalid/1"]> exampleMap)
  = configOf exampleMap.
Proof.
  apply configOf_reads_schema_keys_only.
  intros name Hin. apply lookup_insert_ne.
  intros <-. vm_compute in Hin.
  repeat (destruct Hin as [Hin | Hin]; [discriminate Hin | ]). exact Hin.
Defined.

(** X4.  Putting a value under the key of a schema field makes that field
    of the record the value and leaves every other field of the record as it
    was. *)
Theorem configOf_insert (m : gmap string string) (name v : string)
  (get : EnvConfig -> string) :
  In (name, get) schema ->
  get (configOf (<[name := v]> m)) = v
  /\ forall name' get',
       In (name', get') schema -> name' <> name ->
       get' (configOf (<[name := v]> m)) = get' (configOf m).
Proof.
  intros Hin. split.
  - rewrite (schema_configOf _ name get Hin). apply mapIndex_present.
    apply lookup_insert_eq.
  - intros name' get' Hin' Hne.
    rewrite !(schema_configOf _ name' get' Hin'). apply mapIndex_agree.
    apply lookup_insert_ne. congruence.
Qed.

Lemma configOf_insert_witness :
  JWTSecret (configOf (<["JWT_SECRET" := "s3cr3t"]> exampleMap)) = "s3cr3t"
  /\ DBHost (configOf (<["JWT_SECRET" := "s3cr3t"]> exampleMap))
     = DBHost (configOf exampleMap).
Proof.
  destruct (configOf_insert exampleMap "JWT_SECRET" "s3cr3t" JWTSecret)
    as [Hset Hrest]; [simpl; tauto | ].
  split; [exact Hset | ].
  apply (Hrest "DB_HOST" DBHost); [simpl; tauto | discriminate].
Defined.

(** ** The exporter on every run, failing ones included *)

Lemma loopStep_cases (U : Unicode) (H : Host) (text : string)
  (rest : list string) (p : Process) :
  (entryOf U text = None
   /\ exportLoop U H (text :: rest) p = exportLoop U H rest p)
  \/ (exists k v,
        entryOf U text = Some (k, v) /\ setenvCheck H k v = None
        /\ exportLoop U H (text :: rest) p
           = exportLoop U H rest
               {| environ := <[k := v]> (environ p);
                  setenvCalls := setenvCalls p ++ [(k, v)] |})
  \/ (exists k v err,
        entryOf U text = Some (k, v) /\ setenvCheck H k v = Some err
        /\ exportLoop U H (text :: rest) p
           = ({| environ := environ p; setenvCalls := setenvCalls p ++ [(k, v)] |},
              Some (Errorf ("failed to set env var " +:+ k) err))).
Proof.
  rewrite exportLoop_cons. unfold loopStep.
  destruct (entryOf U text) as [[k v] | ]; [ | left; auto].
  destruct (setenvCheck H k v) as [err | ] eqn:Hc.
  - right. right. exists k, v, err. now rewrite (Setenv_rejected H k v p err Hc).
  - right. left. exists k, v. now rewrite (Setenv_accepted H k v p Hc).
Qed.

Lemma in_entriesOf_cons (U : Unicode) (text : string) (rest : list string)
  (e : string * string) :
  In e (entriesOf U rest) -> In e (entriesOf U (text :: rest)).
Proof.
  rewrite entriesOf_cons. destruct (entryOf U text); [now right | auto].
Qed.

Lemma in_entriesOf_head (U : Unicode) (text : string) (rest : list string)
  (e : string * string) :
  entryOf U text = Some e -> In e (entriesOf U (text :: rest)).
Proof. intros He. rewrite entriesOf_cons, He. now left. Qed.

(** X5.  Whatever the lines are and whether the run ends well or not, every
    variable of the environment after [LoadSOPSEnvToSystem]'s loop either is
    as it was before, or holds the value of an entry of the document under
    its name: the loop removes no variable and invents no value. *)
Theorem export_sets_document_values_only (U : Unicode) (H : Host)
  (lines : list string) (p : Process) (key : string) :
  environ (exportLoop U H lines p).1 !! key = environ p !! key
  \/ exists v,
       In (key, v) (entriesOf U lines)
       /\ environ (exportLoop U H lines p).1 !! key = Some v.
Proof.
  revert p. induction lines as [|text rest IH]; intros p; [now left | ].
  destruct (loopStep_cases U H text rest p)
    as [[_ ->] | [(k & v & He & _ & ->) | (k & v & err & _ & _ & ->)]].
  - destruct (IH p) as [Hsame | (v & Hin & Hv)]; [now left | right].
    exists v. split; [now apply in_entriesOf_cons | exact Hv].
  - match goal with |- context [exportLoop U H rest ?q] =>
      destruct (IH q) as [Hsame | (w & Hin & Hw)] end.
    + rewrite Hsame. cbn [environ].
      destruct (decide (k = key)) as [-> | Hne].
      * right. exists v. split; [now apply in_entriesOf_head | apply lookup_insert_eq].
      * left. now apply lookup_insert_ne.
    + right. exists w. split; [now apply in_entriesOf_cons | exact Hw].
  - now left.
Qed.

Lemma exportLoop_error_shape (U : Unicode) (H : Host) (lines : list string)
  (p : Process) (e : error) :
  (exportLoop U H lines p).2 = Some e ->
  exists k v err,
    In (k, v) (entriesOf U lines) /\ setenvCheck H k v = Some err
    /\ e = Errorf ("failed to set env var " +:+ k) err.
Proof.
  revert p. induction lines as [|text rest IH]; intros p; [discriminate | ].
  destruct (loopStep_cases U H text rest p)
    as [[_ ->] | [(k & v & He & _ & ->) | (k & v & err & He & Hc & ->)]].
  - intros Hr. destruct (IH p Hr) as (k & v & err & Hin & Hc & ->).
    exists k, v, err. split; [now apply in_entriesOf_cons | auto].
  - intros Hr. destruct (IH _ Hr) as (k' & v' & err & Hin & Hc & ->).
    exists k', v', err. split; [now apply in_entriesOf_cons | auto].
  - intros Hr. injection Hr as <-. exists k, v, err.
    split; [now apply in_entriesOf_head | auto].
Qed.

Lemma exportLoop_ok_accepted (U : Unicode) (H : Host) (lines : list string)
  (p : Process) :
  (exportLoop U H lines p).2 = None -> allAccepted H (entriesOf U lines).
Proof.
  revert p. induction lines as [|text rest IH]; intros p; [constructor | ].
  destruct (loopStep_cases U H text rest p)
    as [[He ->] | [(k & v & He & Hc & ->) | (k & v & err & _ & _ & ->)]].
  - intros Hr. rewrite entriesOf_cons, He. exact (IH p Hr).
  - intros Hr. rewrite entriesOf_cons, He. constructor; [exact Hc | exact (IH _ Hr)].
  - discriminate.
Qed.

(** X6.  [LoadSOPSEnvToSystem] returns no error exactly when decryption
    succeeds, the platform accepts the assignment of every entry and the
    scanner reports no error.  An error it returns is the decryptor's,
    wrapped as "failed to decrypt env file", with the process untouched; or
    the platform's for an entry of the document, wrapped as "failed to set
    env var" and the key; or the scanner's, as it is. *)
Theorem LoadSOPSEnvToSystem_outcomes (U : Unicode) (H : Host) (filename : string)
  (p : Process) :
  ((LoadSOPSEnvToSystem U H filename p).2 = None <->
   exists data lines,
     sopsDecrypt H filename = inl data /\ scanLines H data = (lines, None)
     /\ allAccepted H (entriesOf U lines))
  /\ forall e,
       (LoadSOPSEnvToSystem U H filename p).2 = Some e ->
       (exists cause,
          sopsDecrypt H filename = inr cause
          /\ LoadSOPSEnvToSystem U H filename p
             = (p, Some (Errorf "failed to decrypt env file" cause)))
       \/ exists data lines scanErr,
            sopsDecrypt H filename = inl data
            /\ scanLines H data = (lines, scanErr)
            /\ ((exists k v err,
                   In (k, v) (entriesOf U lines) /\ setenvCheck H k v = Some err
                   /\ e = Errorf ("failed to set env var " +:+ k) err)
                \/ (allAccepted H (entriesOf U lines) /\ scanErr = Some e)).
Proof.
  unfold LoadSOPSEnvToSystem.
  destruct (sopsDecrypt H filename) as [data | cause] eqn:Hd.
  - destruct (scanLines H data) as [lines scanErr] eqn:Hs.
    destruct (exportLoop U H lines p) as [p' [e' | ]] eqn:Hrun; cbn [snd].
    + split.
      * split; [discriminate | ]. intros (data' & lines' & Hd' & Hs' & Hacc).
        assert (data' = data) as -> by congruence.
        assert (lines' = lines) as -> by congruence.
        rewrite (exportLoop_accepted U H lines p Hacc) in Hrun. discriminate.
      * intros e He. injection He as <-. right. exists data, lines, scanErr.
        split; [reflexivity | ]. split; [exact Hs | ]. left.
        apply (exportLoop_error_shape U H lines p). now rewrite Hrun.
    + assert (Hacc : allAccepted H (entriesOf U lines))
        by (apply (exportLoop_ok_accepted U H lines p); now rewrite Hrun).
      split.
      * split.
        -- intros ->. exists data, lines. auto.
        -- intros (data' & lines' & Hd' & Hs' & _).
           assert (data' = data) as -> by congruence. congruence.
      * intros e He. right. exists data, lines, scanErr. auto.
  - cbn [snd]. split.
    + split; [discriminate | ]. intros (data & lines & Hd' & _). discriminate.
    + intros e He. left. exists cause. auto.
Qed.

Lemma LoadSOPSEnvToSystem_outcomes_witness :
  (LoadSOPSEnvToSystem exampleUnicode (exampleHost "ignored" ∅ exampleLines)
     "config.sops.env" emptyProcess).2 = None.
Proof.
  apply (proj1 (LoadSOPSEnvToSystem_outcomes exampleUnicode
                  (exampleHost "ignored" ∅ exampleLines) "config.sops.env"
                  emptyProcess)).
  exists "ignored", exampleLines. split; [reflexivity | ]. split; [reflexivity | ].
  vm_compute. repeat constructor.
Defined.

Lemma assignAll_twice (entries : list (string * string)) (env : gmap string string) :
  assignAll entries (assignAll entries env) = assignAll entries env.
Proof.
  apply map_eq. intros key. rewrite !assignAll_lookup.
  destruct (lastValue key entries); reflexivity.
Qed.

(** X7.  Exporting the same document a second time changes nothing.  The
    file is decrypted anew by the second run, by a host that need not be the
    host of the first run (the first run has rewritten the environment that
    the decryptor starts in).  When the first run ends without error and the
    second decryption yields what the first yielded, scanner and platform
    being the same, the second run on the process that the first left ends
    without error and leaves the same environment. *)
Theorem export_twice (U : Unicode) (first second : Host) (filename : string)
  (p p1 : Process) :
  LoadSOPSEnvToSystem U first filename p = (p1, None) ->
  sopsDecrypt second filename = sopsDecrypt first filename ->
  scanLines second = scanLines first ->
  setenvCheck second = setenvCheck first ->
  exists p2,
    LoadSOPSEnvToSystem U second filename p1 = (p2, None)
    /\ environ p2 = environ p1.
Proof.
  unfold LoadSOPSEnvToSystem. intros Hr Hd Hs Hc. rewrite Hd, Hs.
  destruct (sopsDecrypt first filename) as [data | cause]; [ | discriminate].
  destruct (scanLines first data) as [lines scanErr].
  destruct (exportLoop U first lines p) as [q [e | ]] eqn:Hrun; [discriminate | ].
  injection Hr as -> ->.
  assert (Hacc : allAccepted first (entriesOf U lines))
    by (apply (exportLoop_ok_accepted U first lines p); now rewrite Hrun).
  assert (Hacc2 : allAccepted second (entriesOf U lines))
    by (unfold allAccepted; now rewrite Hc).
  rewrite (exportLoop_accepted U first lines p Hacc) in Hrun. injection Hrun as <-.
  rewrite (exportLoop_accepted U second lines _ Hacc2).
  eexists. split; [reflexivity | ]. cbn [afterAssignments environ].
  apply assignAll_twice.
Qed.

Lemma export_twice_witness :
  exists p2,
    LoadSOPSEnvToSystem exampleUnicode (laterHost "ignored" exampleLines)
      "config.sops.env"
      (LoadSOPSEnvToSystem exampleUnicode (exampleHost "ignored" ∅ exampleLines)
         "config.sops.env" emptyProcess).1
    = (p2, None)
    /\ environ p2
       = environ (LoadSOPSEnvToSystem exampleUnicode
                    (exampleHost "ignored" ∅ exampleLines)
                    "config.sops.env" emptyProcess).1.
Proof.
  apply (export_twice exampleUnicode (exampleHost "ignored" ∅ exampleLines)
           (laterHost "ignored" exampleLines) "config.sops.env" emptyProcess).
  - vm_compute. reflexivity.
  - reflexivity.
  - reflexivity.
  - reflexivity.
Defined.

(** X8.  The two loads give the same value for a schema field whenever the
    parser's map and the exporter's entries agree on its key: if the map
    holds under the key what the last entry of the key holds (nothing, when
    no entry names it and the environment did not hold it), then after a run
    that the platform accepts, [os.Getenv] of the key is the field of the
    record. *)
Theorem typed_and_exported_agree (U : Unicode) (H : Host) (lines : list string)
  (p : Process) (envMap : gmap string string) (name : string)
  (get : EnvConfig -> string) :
  In (name, get) schema ->
  allAccepted H (entriesOf U lines) ->
  envMap !! name = lastValue name (entriesOf U lines) ->
  (lastValue name (entriesOf U lines) = None -> Getenv p name = EmptyString) ->
  Getenv (exportLoop U H lines p).1 name = get (configOf envMap).
Proof.
  intros Hin Hacc Hagree Hunset.
  rewrite (schema_configOf envMap name get Hin), (exportLoop_accepted U H lines p Hacc).
  unfold Getenv at 1, mapIndex. cbn [fst afterAssignments environ].
  rewrite assignAll_lookup, Hagree.
  destruct (lastValue name (entriesOf U lines)) as [v | ]; [reflexivity | ].
  apply Hunset. reflexivity.
Qed.

Lemma typed_and_exported_agree_witness :
  Getenv (exportLoop exampleUnicode (exampleHost "ignored" ∅ exampleLines)
            exampleLines emptyProcess).1 "DB_PORT"
  = DBPort (configOf exampleMap).
Proof.
  apply (typed_and_exported_agree exampleUnicode
           (exampleHost "ignored" ∅ exampleLines) exampleLines emptyProcess
           exampleMap "DB_PORT" DBPort).
  - simpl. tauto.
  - vm_compute. repeat constructor.
  - vm_compute. reflexivity.
  - intros Hnone. vm_compute in Hnone. discriminate Hnone.
Defined.

(** ** The environment-table report and the typed-record report *)

Lemma printVars_agree (U : Unicode) (p q : Process) (names : list string) :
  (forall name, In name names -> Getenv p name = Getenv q name) ->
  printVars U p names = printVars U q names.
Proof.
  induction names as [|V rest IH]; intros H; [reflexivity | ].
  cbn [printVars]. rewrite (H V) by now left.
  rewrite IH by (intros name Hin; apply H; now right). reflexivity.
Qed.

(** X9.  [PrintSystemEnvVars] shows the 23 variables of its list and nothing
    else: two processes in which these variables have the same values get
    the same report, whatever else their environments hold, and whether an
    empty variable is set or not. *)
Theorem env_table_reads_listed_vars_only (U : Unicode) (p q : Process) :
  (forall name, In name ourVars -> Getenv p name = Getenv q name) ->
  PrintSystemEnvVars U p = PrintSystemEnvVars U q.
Proof.
  intros H. unfold PrintSystemEnvVars. now rewrite (printVars_agree U p q ourVars H).
Qed.

Lemma env_table_reads_listed_vars_only_witness :
  PrintSystemEnvVars exampleUnicode
    (withVar "AWS_SECRET_ACCESS_KEY" "wJalrXUtnFEMI" (withVar "DEBUG" EmptyString emptyProcess))
  = PrintSystemEnvVars exampleUnicode emptyProcess.
Proof.
  apply env_table_reads_listed_vars_only.
  intros name Hin. vm_compute in Hin.
  repeat (destruct Hin as [Hin | Hin]; [subst name; vm_compute; reflexivity | ]).
  destruct Hin.
Defined.

Lemma linesLabelled_keep (label line : string) (out : list string) :
  HasPrefix line label = true ->
  linesLabelled label (line :: out) = line :: linesLabelled label out.
Proof. intros Hp. unfold linesLabelled. cbn [List.filter]. now rewrite Hp. Qed.

Lemma linesLabelled_app (label : string) (a b : list string) :
  linesLabelled label (a ++ b) = linesLabelled label a ++ linesLabelled label b.
Proof. unfold linesLabelled. apply List.filter_app. Qed.

Lemma HasPrefix_self (a b : string) : HasPrefix (a +:+ b) a = true.
Proof.
  induction a as [|c a IH]; [now destruct b | ].
  change (String c a +:+ b) with (String c (a +:+ b)).
  now rewrite HasPrefix_cons, Ascii.eqb_refl, IH.
Qed.

Lemma PrintfVar_label (V name x : string) :
  allBytes (fun c => negb (isEq c)) V = true ->
  allBytes (fun c => negb (isEq c)) name = true ->
  HasPrefix (PrintfVar V x) (varLabel name) = true -> V = name.
Proof.
  intros HV Hn Hp. unfold PrintfVar, varLabel in Hp. rewrite HasPrefix_app in Hp.
  now apply (label_same_name V name (x +:+ nl)).
Qed.

Lemma PrintfVar_own_label (name x : string) :
  HasPrefix (PrintfVar name x) (varLabel name) = true.
Proof.
  unfold PrintfVar, varLabel. rewrite HasPrefix_app.
  rewrite <- (app_assoc_s name "="). apply HasPrefix_self.
Qed.

Lemma printVars_other_names (U : Unicode) (p : Process) (name : string)
  (names : list string) :
  (forall V, In V names -> allBytes (fun c => negb (isEq c)) V = true) ->
  allBytes (fun c => negb (isEq c)) name = true ->
  ~ In name names ->
  linesLabelled (varLabel name) (printVars U p names) = [].
Proof.
  intros Hnames Hname Hout.
  induction names as [|V rest IH]; [reflexivity | ].
  assert (IH' : linesLabelled (varLabel name) (printVars U p rest) = []).
  { apply IH; [intros W HW; apply Hnames; now right | ].
    intros Hin. apply Hout. now right. }
  cbn [printVars]. destruct (negb (String.eqb (Getenv p V) EmptyString)); [ | exact IH'].
  assert (Hmiss : forall x, HasPrefix (PrintfVar V x) (varLabel name) = false).
  { intros x. destruct (HasPrefix (PrintfVar V x) (varLabel name)) eqn:Hp; [ | reflexivity].
    apply PrintfVar_label in Hp; [ | apply Hnames; now left | exact Hname].
    exfalso. apply Hout. now left. }
  destruct (isSecret U V); now rewrite linesLabelled_skip by apply Hmiss.
Qed.

Lemma printVars_one_line (U : Unicode) (p : Process) (name : string)
  (names : list string) :
  List.NoDup names ->
  (forall V, In V names -> allBytes (fun c => negb (isEq c)) V = true) ->
  In name names ->
  Getenv p name <> EmptyString ->
  linesLabelled (varLabel name) (printVars U p names)
  = [PrintfVar name (shownAs (isSecret U name) (Getenv p name))].
Proof.
  intros Hnd Hnames Hin Hset.
  assert (Hname : allBytes (fun c => negb (isEq c)) name = true) by now apply Hnames.
  induction names as [|V rest IH]; [destruct Hin | ].
  apply List.NoDup_cons_iff in Hnd as [Hfresh Hnd].
  assert (Hrest : forall W, In W rest -> allBytes (fun c => negb (isEq c)) W = true)
    by (intros W HW; apply Hnames; now right).
  cbn [printVars].
  destruct (String.eqb_spec V name) as [-> | Hne].
  - destruct (String.eqb_spec (Getenv p name) EmptyString) as [He | _]; [congruence | ].
    cbn [negb].
    replace (if isSecret U name then PrintfVar name (maskSecret (Getenv p name))
             else PrintfVar name (Getenv p name))
      with (PrintfVar name (shownAs (isSecret U name) (Getenv p name)))
      by (unfold shownAs; now destruct (isSecret U name)).
    rewrite linesLabelled_keep by apply PrintfVar_own_label.
    now rewrite (printVars_other_names U p name rest Hrest Hname Hfresh).
  - destruct Hin as [Heq | Hin]; [congruence | ].
    specialize (IH Hnd Hrest Hin).
    destruct (negb (String.eqb (Getenv p V) EmptyString)); [ | exact IH].
    assert (Hmiss : forall x, HasPrefix (PrintfVar V x) (varLabel name) = false).
    { intros x. destruct (HasPrefix (PrintfVar V x) (varLabel name)) eqn:Hp; [ | reflexivity].
      apply PrintfVar_label in Hp; [congruence | apply Hnames; now left | exact Hname]. }
    destruct (isSecret U V); now rewrite linesLabelled_skip by apply Hmiss.
Qed.

Lemma ourVars_NoDup : List.NoDup ourVars.
Proof.
  unfold ourVars.
  repeat (constructor;
          [intros H; simpl in H;
           repeat (destruct H as [H | H]; [discriminate H | ]); exact H | ]).
  constructor.
Qed.

Lemma env_table_line (U : Unicode) (p : Process) (name : string) :
  In name ourVars ->
  Getenv p name <> EmptyString ->
  linesLabelled (varLabel name) (PrintSystemEnvVars U p)
  = [PrintfVar name (shownAs (isSecret U name) (Getenv p name))].
Proof.
  intros Hin Hset. unfold PrintSystemEnvVars.
  rewrite !linesLabelled_skip by reflexivity.
  now apply (printVars_one_line U p name ourVars ourVars_NoDup ourVars_no_eq).
Qed.

(** X10.  A listed variable with a value that is not empty has exactly one
    line in the report of [PrintSystemEnvVars], and the line shows the value
    masked when [isSecret] accepts the name and as it is otherwise. *)
Theorem env_table_one_line (U : Unicode) (p : Process) (name : string) :
  In name ourVars ->
  Getenv p name <> EmptyString ->
  linesLabelled (varLabel name) (PrintSystemEnvVars U p)
  = [PrintfVar name (shownAs (isSecret U name) (Getenv p name))].
Proof.
  intros Hin Hset. unfold PrintSystemEnvVars.
  rewrite !linesLabelled_skip by reflexivity.
  apply (printVars_one_line U p name ourVars ourVars_NoDup ourVars_no_eq Hin Hset).
Qed.

Lemma env_table_one_line_witness :
  linesLabelled (varLabel "DB_PASSWORD")
    (PrintSystemEnvVars exampleUnicode
       (withVar "DB_PASSWORD" "super_secret_password_123"
          (withVar "DB_HOST" "localhost" emptyProcess)))
  = [PrintfVar "DB_PASSWORD" "su*********************23"].
Proof.
  rewrite env_table_one_line; [reflexivity | vm_compute; tauto | discriminate].
Defined.

Lemma PrintConfig_field_line (U : Unicode) (config : EnvConfig) (name : string)
  (get : EnvConfig -> string) :
  In (name, get) schema ->
  linesLabelled (recordLabel name) (PrintConfig config)
  = [recordLine name
       (if String.eqb name "REDIS_URL" then maskSecret (get config)
        else shownAs (isSecret U name) (get config))].
Proof.
  unfold schema. intros H.
  repeat (destruct H as [H | H]; [injection H as <- <-; vm_compute; reflexivity | ]).
  destruct H.
Qed.

(** X11.  When a field of the record and the variable of the same name hold
    the same value, not empty, the two reports show it alike, masked or not,
    for every field but [REDIS_URL]; the value of [REDIS_URL] is masked by
    [PrintConfig] and written as it is by [PrintSystemEnvVars]. *)
Theorem reports_differ_on_redis_url_only (U : Unicode) (config : EnvConfig)
  (p : Process) (name : string) (get : EnvConfig -> string) :
  In (name, get) schema ->
  Getenv p name = get config ->
  get config <> EmptyString ->
  (name <> "REDIS_URL" ->
   exists shown,
     linesLabelled (recordLabel name) (PrintConfig config) = [recordLine name shown]
     /\ linesLabelled (varLabel name) (PrintSystemEnvVars U p) = [PrintfVar name shown])
  /\ (name = "REDIS_URL" ->
      linesLabelled (recordLabel name) (PrintConfig config)
      = [recordLine name (maskSecret (get config))]
      /\ linesLabelled (varLabel name) (PrintSystemEnvVars U p)
         = [PrintfVar name (get config)]).
Proof.
  intros Hin Hsame Hset.
  assert (Hour : In name ourVars).
  { rewrite <- schema_names. change name with (fst (name, get)). now apply in_map. }
  assert (Henv : linesLabelled (varLabel name) (PrintSystemEnvVars U p)
                 = [PrintfVar name (shownAs (isSecret U name) (get config))]).
  { rewrite <- Hsame. apply env_table_line; [exact Hour | now rewrite Hsame]. }
  rewrite (PrintConfig_field_line U config name get Hin), Henv. split.
  - intros Hne. apply String.eqb_neq in Hne. rewrite Hne. eauto.
  - intros ->. split; reflexivity.
Qed.

Lemma reports_differ_on_redis_url_only_witness :
  linesLabelled (recordLabel "REDIS_URL") (PrintConfig redisConfig)
  = [recordLine "REDIS_URL" "re******************79"]
  /\ linesLabelled (varLabel "REDIS_URL")
       (PrintSystemEnvVars exampleUnicode
          (withVar "REDIS_URL" "redis://localhost:6379" emptyProcess))
     = [PrintfVar "REDIS_URL" "redis://localhost:6379"].
Proof.
  apply (reports_differ_on_redis_url_only exampleUnicode redisConfig
           (withVar "REDIS_URL" "redis://localhost:6379" emptyProcess)
           "REDIS_URL" RedisURL);
    [simpl; tauto | reflexivity | discriminate | reflexivity].
Defined.

(** ** [main] *)

Lemma LoadSOPSEnv_cases (H : Host) (filename : string) :
  (exists config, LoadSOPSEnv H filename = (Some config, None))
  \/ (exists err, LoadSOPSEnv H filename = (None, Some err)).
Proof.
  unfold LoadSOPSEnv.
  destruct (sopsDecrypt H filename) as [data | err]; [ | right; eauto].
  destruct (createTemp H) as [err | ]; [right; eauto | ].
  destruct (writeTemp H data) as [err | ]; [right; eauto | ].
  destruct (godotenvRead H data) as [envMap | err]; [left | right]; eauto.
Qed.

(** X12.  [main] exits with status 0 or 1, never by a nil dereference.  It
    exits with 0 exactly when the first load returns a record and the second
    load returns no error, and exactly then it writes nothing to standard
    error.  When the first load fails, only the banner has been written and
    the process is untouched: nothing is exported before the typed load has
    succeeded. *)
Theorem main_exit_code (U : Unicode) (first second : Host) (stamp : string)
  (p : Process) :
  (exitCode (main U first second stamp p) = 0
   \/ exitCode (main U first second stamp p) = 1)
  /\ (exitCode (main U first second stamp p) = 0 <->
      (exists config, LoadSOPSEnv first "config.sops.env" = (Some config, None))
      /\ (LoadSOPSEnvToSystem U second "config.sops.env" p).2 = None)
  /\ (exitCode (main U first second stamp p) = 0 <->
      stderr (main U first second stamp p) = [])
  /\ forall err,
       LoadSOPSEnv first "config.sops.env" = (None, Some err) ->
       stdout (main U first second stamp p) = banner
       /\ stderr (main U first second stamp p)
          = [Fatalf stamp ("Error loading SOPS env config: " +:+ errorText err)]
       /\ after (main U first second stamp p) = p.
Proof.
  unfold main.
  destruct (LoadSOPSEnv_cases first "config.sops.env") as [[config ->] | [err ->]].
  - destruct (LoadSOPSEnvToSystem U second "config.sops.env" p) as [p' [err | ]];
      cbn [exitCode stderr snd].
    + split; [now right | ]. split; [ | split].
      * split; [discriminate | intros [_ Hn]; discriminate].
      * split; discriminate.
      * intros err' Hr. discriminate.
    + split; [now left | ]. split; [ | split].
      * split; [eauto | reflexivity].
      * split; reflexivity.
      * intros err' Hr. discriminate.
  - cbn [exitCode stderr stdout after]. split; [now right | ]. split; [ | split].
    + split; [discriminate | intros [[config Hc] _]; discriminate].
    + split; discriminate.
    + intros err' Hr. injection Hr as <-. auto.
Qed.

Lemma main_exit_code_witness :
  stdout (main exampleUnicode failingHost failingHost "2026/01/01 00:00:00 " emptyProcess)
  = banner
  /\ after (main exampleUnicode failingHost failingHost "2026/01/01 00:00:00 " emptyProcess)
     = emptyProcess.
Proof.
  destruct (main_exit_code exampleUnicode failingHost failingHost
              "2026/01/01 00:00:00 " emptyProcess) as (_ & _ & _ & Hfail).
  destruct (Hfail (Errorf "failed to decrypt env file" (External "exit status 128")))
    as (Hout & _ & Hafter); [reflexivity | ].
  split; [exact Hout | exact Hafter].
Defined.

Lemma printVars_no_label (U : Unicode) (p : Process) (label : string)
  (names : list string) :
  (forall V x, In V names -> HasPrefix (PrintfVar V x) label = false) ->
  linesLabelled label (printVars U p names) = [].
Proof.
  intros Hmiss. induction names as [|V rest IH]; [reflexivity | ].
  assert (IH' : linesLabelled label (printVars U p rest) = [])
    by (apply IH; intros W x HW; apply Hmiss; now right).
  cbn [printVars]. destruct (negb (String.eqb (Getenv p V) EmptyString)); [ | exact IH'].
  destruct (isSecret U V); now rewrite linesLabelled_skip by (apply Hmiss; now left).
Qed.

Lemma ourVars_not_dsn (V x : string) :
  In V ourVars -> HasPrefix (PrintfVar V x) dsnLabel = false.
Proof.
  unfold ourVars. intros H.
  repeat (destruct H as [H | H]; [subst V; reflexivity | ]).
  destruct H.
Qed.

Lemma PrintConfig_no_dsn (config : EnvConfig) :
  linesLabelled dsnLabel (PrintConfig config) = [].
Proof.
  unfold PrintConfig. now rewrite !linesLabelled_skip by reflexivity.
Qed.

(** X13.  When both loads succeed, [main] writes two data-source lines,
    first the one built from the record, then the one built from the
    environment, each with the password masked; when the record and the
    environment hold the same user, password, host, port and database name,
    the two lines are the same. *)
Theorem main_dsn_lines (U : Unicode) (first second : Host) (stamp : string)
  (p p' : Process) (config : EnvConfig) :
  LoadSOPSEnv first "config.sops.env" = (Some config, None) ->
  LoadSOPSEnvToSystem U second "config.sops.env" p = (p', None) ->
  linesLabelled dsnLabel (stdout (main U first second stamp p))
  = [dsnLine (DBUser config) (maskSecret (DBPassword config))
       (DBHost config) (DBPort config) (DBName config);
     dsnLine (Getenv p' "DB_USER") (maskSecret (Getenv p' "DB_PASSWORD"))
       (Getenv p' "DB_HOST") (Getenv p' "DB_PORT") (Getenv p' "DB_NAME")]
  /\ (Getenv p' "DB_USER" = DBUser config ->
      Getenv p' "DB_PASSWORD" = DBPassword config ->
      Getenv p' "DB_HOST" = DBHost config ->
      Getenv p' "DB_PORT" = DBPort config ->
      Getenv p' "DB_NAME" = DBName config ->
      exists line,
        linesLabelled dsnLabel (stdout (main U first second stamp p)) = [line; line]).
Proof.
  intros Hload Hexport.
  assert (Hlines :
    linesLabelled dsnLabel (stdout (main U first second stamp p))
    = [dsnLine (DBUser config) (maskSecret (DBPassword config))
         (DBHost config) (DBPort config) (DBName config);
       dsnLine (Getenv p' "DB_USER") (maskSecret (Getenv p' "DB_PASSWORD"))
         (Getenv p' "DB_HOST") (Getenv p' "DB_PORT") (Getenv p' "DB_NAME")]).
  { unfold main. rewrite Hload, Hexport. cbn [stdout].
    rewrite !linesLabelled_app, PrintConfig_no_dsn.
    unfold PrintSystemEnvVars, banner.
    rewrite (linesLabelled_skip dsnLabel (Println (nl +:+ _))
               (Println "================================================"
                  :: printVars U p' ourVars)) by reflexivity.
    rewrite (linesLabelled_skip dsnLabel _ (printVars U p' ourVars)) by reflexivity.
    rewrite (printVars_no_label U p' dsnLabel ourVars)
      by (intros V x HV; now apply ourVars_not_dsn).
    repeat (rewrite linesLabelled_skip by reflexivity
            || rewrite linesLabelled_keep by reflexivity).
    reflexivity. }
  split; [exact Hlines | ].
  intros Hu Hpw Hh Hport Hn. rewrite Hlines, Hu, Hpw, Hh, Hport, Hn. eauto.
Qed.

Lemma main_dsn_lines_witness :
  linesLabelled dsnLabel
    (stdout (main exampleUnicode (exampleHost "ignored" exampleMap exampleLines)
               (exampleHost "ignored" exampleMap exampleLines)
               "2026/01/01 00:00:00 " emptyProcess))
  = [dsnLine EmptyString "su*********************23" "localhost" "5432" EmptyString;
     dsnLine EmptyString EmptyString "db.internal" "5432" EmptyString].
Proof.
  refine (proj1 (main_dsn_lines exampleUnicode
                   (exampleHost "ignored" exampleMap exampleLines)
                   (exampleHost "ignored" exampleMap exampleLines)
                   "2026/01/01 00:00:00 " emptyProcess
                   (LoadSOPSEnvToSystem exampleUnicode
                      (exampleHost "ignored" exampleMap exampleLines)
                      "config.sops.env" emptyProcess).1
                   (configOf exampleMap) _ _)).
  - reflexivity.
  - vm_compute. reflexivity.
Defined.

(** ** The YAML program *)

(** X14.  The YAML [main] exits with status 0 or 1.  It exits with 0 exactly
    when decryption and parsing both succeed; when either fails it has
    written nothing to standard output and one line to standard error, which
    names the stage that failed and the cause.  It never changes the
    process. *)
Theorem yaml_main_outcomes (H : Host) (unmarshal : Yaml.Unmarshal)
  (stamp : string) (p : Process) :
  (exitCode (Yaml.main H unmarshal stamp p) = 0
   \/ exitCode (Yaml.main H unmarshal stamp p) = 1)
  /\ (exitCode (Yaml.main H unmarshal stamp p) = 0 <->
      exists data config,
        sopsDecrypt H "config.sops.yaml" = inl data /\ unmarshal data = inl config)
  /\ (forall cause,
        sopsDecrypt H "config.sops.yaml" = inr cause ->
        stdout (Yaml.main H unmarshal stamp p) = []
        /\ stderr (Yaml.main H unmarshal stamp p)
           = [Fatalf stamp ("Error loading config: failed to decrypt config file: "
                            +:+ errorText cause)])
  /\ (forall data cause,
        sopsDecrypt H "config.sops.yaml" = inl data ->
        unmarshal data = inr cause ->
        stdout (Yaml.main H unmarshal stamp p) = []
        /\ stderr (Yaml.main H unmarshal stamp p)
           = [Fatalf stamp ("Error loading config: failed to parse config: "
                            +:+ errorText cause)])
  /\ after (Yaml.main H unmarshal stamp p) = p.
Proof.
  unfold Yaml.main, Yaml.LoadSOPSConfig.
  destruct (sopsDecrypt H "config.sops.yaml") as [data | cause].
  - destruct (unmarshal data) as [config | cause] eqn:Hu;
      cbn [exitCode stdout stderr after].
    + split; [now left | ]. split; [split; eauto | ].
      split; [discriminate | ]. split; [ | reflexivity].
      intros data' cause Hd Hu'. congruence.
    + split; [now right | ]. split.
      * split; [discriminate | ]. intros (data' & config & Hd & Hu'). congruence.
      * split; [discriminate | ]. split; [ | reflexivity].
        intros data' cause' Hd Hu'.
        assert (data' = data) as -> by congruence.
        assert (cause' = cause) as -> by congruence. auto.
  - cbn [exitCode stdout stderr after]. split; [now right | ]. split.
    + split; [discriminate | ]. intros (data & config & Hd & _). discriminate.
    + split; [ | split; [discriminate | reflexivity]].
      intros cause' Hd. injection Hd as <-. auto.
Qed.

Lemma yaml_main_outcomes_witness :
  stdout (Yaml.main failingHost (fun _ => inr (External "unused"))
            "2026/01/01 00:00:00 " emptyProcess) = []
  /\ stderr (Yaml.main failingHost (fun _ => inr (External "unused"))
               "2026/01/01 00:00:00 " emptyProcess)
     = [Fatalf "2026/01/01 00:00:00 "
          "Error loading config: failed to decrypt config file: exit status 128"].
Proof.
  destruct (yaml_main_outcomes failingHost (fun _ => inr (External "unused"))
              "2026/01/01 00:00:00 " emptyProcess) as (_ & _ & Hdecrypt & _).
  apply (Hdecrypt (External "exit status 128")). reflexivity.
Defined.

(** X15.  The YAML report masks nothing: for every configuration the two
    password lines show the PostgreSQL and the Redis password as they are,
    the key line shows the JWT key as it is, and the PostgreSQL data-source
    line holds the password as it is between user and host. *)
Theorem yaml_report_shows_secrets (config : Yaml.Config) :
  linesLabelled "  Password: " (Yaml.report config)
  = [PrintfLabel "  Password: "
       (Yaml.PSQLPassword (Yaml.StoragePSQL (Yaml.ConfigStorage config)));
     PrintfLabel "  Password: "
       (Yaml.RedisPassword (Yaml.StorageRedis (Yaml.ConfigStorage config)))]
  /\ linesLabelled "  Auth Key: " (Yaml.report config)
     = [PrintfLabel "  Auth Key: " (Yaml.Auth (Yaml.ConfigJWT config))]
  /\ exists rest,
       linesLabelled "PostgreSQL DSN: " (Yaml.report config)
       = ["PostgreSQL DSN: postgresql://"
            +:+ Yaml.PSQLUsername (Yaml.StoragePSQL (Yaml.ConfigStorage config))
            +:+ ":"
            +:+ Yaml.PSQLPassword (Yaml.StoragePSQL (Yaml.ConfigStorage config))
            +:+ "@" +:+ rest].
Proof.
  unfold Yaml.report. cbv zeta. split; [ | split].
  - repeat (rewrite linesLabelled_skip by reflexivity
            || rewrite linesLabelled_keep by reflexivity).
    reflexivity.
  - repeat (rewrite linesLabelled_skip by reflexivity
            || rewrite linesLabelled_keep by reflexivity).
    reflexivity.
  - eexists.
    repeat (rewrite linesLabelled_skip by reflexivity
            || rewrite linesLabelled_keep by reflexivity).
    reflexivity.
Qed.

(** ** A line that starts with ['='] *)

(** X16.  On a platform that checks assignments as Unix does, a line whose
    trimmed text starts with ['='] stops the export: its key is empty, the
    assignment is rejected, and the loop returns "failed to set env var "
    with the platform's error, leaving the environment as the lines before
    it made it. *)
Theorem export_empty_key_fails (U : Unicode) (H : Host) (pre : list string)
  (text rest : string) (post : list string) (p : Process) :
  setenvCheck H = unixSetenvCheck ->
  allAccepted H (entriesOf U pre) ->
  TrimSpace U text = "=" +:+ rest ->
  exists p',
    exportLoop U H (pre ++ text :: post) p
    = (p', Some (Errorf "failed to set env var " (External "setenv: invalid argument")))
    /\ environ p' = assignAll (entriesOf U pre) (environ p).
Proof.
  intros Hunix Hacc Htrim.
  assert (Hentry : entryOf U text = Some (EmptyString, TrimSpace U rest)).
  { rewrite entryOf_trimmed; rewrite Htrim; [reflexivity | discriminate | reflexivity]. }
  rewrite (exportLoop_app U H pre (text :: post) p Hacc), exportLoop_cons.
  unfold loopStep. rewrite Hentry.
  rewrite (Setenv_rejected H EmptyString (TrimSpace U rest) _
             (External "setenv: invalid argument"))
    by (rewrite Hunix; reflexivity).
  eexists. split; reflexivity.
Qed.

Lemma export_empty_key_fails_witness :
  exists p',
    exportLoop exampleUnicode (exampleHost "ignored" ∅ [])
      (["A=1"] ++ " = oops" :: ["B=2"]) emptyProcess
    = (p', Some (Errorf "failed to set env var " (External "setenv: invalid argument")))
    /\ environ p' = assignAll (entriesOf exampleUnicode ["A=1"]) (environ emptyProcess).
Proof.
  apply (export_empty_key_fails exampleUnicode (exampleHost "ignored" ∅ [])
           ["A=1"] " = oops" " oops" ["B=2"] emptyProcess).
  - reflexivity.
  - vm_compute. repeat constructor.
  - reflexivity.
Defined.

(** * Part VIII: the library outside ASCII, and the claims that rest on it *)

(** ** Bit operations on bytes, as sums *)










(** ** [DecodeRuneInString] and white space *)

Lemma first_cases (c : ascii) :
  match first c with
  | asciiByte => (N_of_ascii c < 0x80)%N
  | invalidByte => (0x80 <= N_of_ascii c)%N
  | leadByte sz lo hi =>
      (0x80 <= lo)%N /\ (hi <= 0xBF)%N
      /\ ((sz = 2 /\ (0xC2 <= N_of_ascii c < 0xE0)%N)
          \/ (sz = 3 /\ (0xE0 <= N_of_ascii c < 0xF0)%N
              /\ (N_of_ascii c = 0xE0%N -> lo = 0xA0%N))
          \/ (sz = 4 /\ (0xF0 <= N_of_ascii c < 0xF5)%N
              /\ (N_of_ascii c = 0xF0%N -> lo = 0x90%N)))
  end.
Proof.
  unfold first. cbv zeta. split_tests; try lia; (split; [lia | split; [lia | ]]).
  all: first [ left; lia | right; left; lia | right; right; lia ].
Qed.


Lemma IsSpace_RuneError : IsSpace RuneError = false.
Proof. reflexivity. Qed.












(** ** [TrimLeftFunc] with [unicode.IsSpace] *)




(** ** [DecodeLastRuneInString] and white space *)





Lemma notContinuation_RuneStart (c : ascii) : notContinuation c = RuneStart c.
Proof. destruct c as [[] [] [] [] [] [] [] []]; reflexivity. Qed.










(** ** [TrimRightFunc] with [unicode.IsSpace] *)








Lemma sliceFrom_app_le (a b : string) (n : nat) :
  n <= len a -> sliceFrom (a +:+ b) n = sliceFrom a n +:+ b.
Proof.
  revert a. induction n as [|n IH]; intros a H; [now destruct a, b | ].
  destruct a as [|c a]; [simpl in H; lia | ].
  simpl. apply IH. rewrite len_cons in H. lia.
Qed.



(** ** [TrimSpace] as a whole *)















(** ** What [trim] takes away *)






(** ** The claim on the order of the document *)




(** ** [strings.Map] and [strings.ToUpper] on text with bytes beyond ASCII *)

Lemma decode_size (s : string) :
  s <> EmptyString ->
  1 <= (DecodeRuneInString s).2 <= len s.
Proof.
  destruct s as [|s0 t0]; [congruence | ]. intros _.
  unfold DecodeRuneInString. rewrite !len_cons.
  destruct (first s0) as [ | | sz lo hi]; cbn [snd]; try lia.
  destruct (Nat.ltb_spec (S (len t0)) sz); cbn [snd]; [lia | ].
  destruct t0 as [|s1 t1]; cbn [snd]; [lia | ]. rewrite len_cons in *.
  destruct (_ || _)%bool; cbn [snd]; [lia | ].
  destruct (sz <=? 2); cbn [snd]; [lia | ].
  destruct t1 as [|s2 t2]; cbn [snd]; [lia | ]. rewrite len_cons in *.
  destruct (notContinuation s2); cbn [snd]; [lia | ].
  destruct (sz <=? 3); cbn [snd]; [lia | ].
  destruct t2 as [|s3 t3]; cbn [snd]; [lia | ]. rewrite len_cons in *.
  destruct (notContinuation s3); cbn [snd]; lia.
Qed.

Lemma startsRune_range (y : string) (lo hi : N) :
  startsRune y = true -> (0x80 <= lo)%N -> (hi <= 0xBF)%N ->
  match y with
  | EmptyString => True
  | String d _ => ((N_of_ascii d <? lo) || (hi <? N_of_ascii d))%N = true
  end.
Proof.
  destruct y as [|d y]; [trivial | ]. simpl. unfold notContinuation.
  intros Hd Hlo Hhi. apply orb_true_iff in Hd as [Hd | Hd]; apply N.ltb_lt in Hd;
    apply orb_true_iff; [left | right]; apply N.ltb_lt; lia.
Qed.

(** The rune decoded at the start of a text does not reach into what
    follows the text, when that starts a rune of its own. *)
Lemma decode_before (l y : string) :
  l <> EmptyString -> startsRune y = true ->
  (DecodeRuneInString (l +:+ y)).2 <= len l.
Proof.
  intros Hl Hy. destruct l as [|s0 t0]; [congruence | ].
  cbn [String.append]. unfold DecodeRuneInString. rewrite !len_cons.
  pose proof (first_cases s0) as F.
  destruct (first s0) as [ | | sz lo hi]; cbn [snd]; try lia.
  destruct F as (Flo & Fhi & _).
  pose proof (startsRune_range y lo hi Hy Flo Fhi) as Hy2.
  pose proof (startsRune_range y 0x80 0xBF Hy (N.le_refl _) (N.le_refl _)) as Hy3.
  destruct (_ <? sz); cbn [snd]; [lia | ].
  destruct t0 as [|s1 t1]; cbn [String.append].
  { destruct y as [|d y]; cbn [snd]; [lia | ]. rewrite Hy2. cbn [snd]. lia. }
  rewrite len_cons.
  destruct (_ || _)%bool; cbn [snd]; [lia | ].
  destruct (sz <=? 2); cbn [snd]; [lia | ].
  destruct t1 as [|s2 t2]; cbn [String.append].
  { destruct y as [|d y]; cbn [snd]; [lia | ].
    unfold notContinuation. rewrite Hy3. cbn [snd]. lia. }
  rewrite len_cons.
  destruct (notContinuation s2); cbn [snd]; [lia | ].
  destruct (sz <=? 3); cbn [snd]; [lia | ].
  destruct t2 as [|s3 t3]; cbn [String.append].
  { destruct y as [|d y]; cbn [snd]; [lia | ].
    unfold notContinuation. rewrite Hy3. cbn [snd]. lia. }
  rewrite len_cons.
  destruct (notContinuation s3); cbn [snd]; lia.
Qed.

Lemma mapLoop_fuel (mapping : N -> N) (f1 f2 : nat) (s : string) :
  len s <= f1 -> len s <= f2 -> mapLoop f1 mapping s = mapLoop f2 mapping s.
Proof.
  revert f2 s. induction f1 as [|f1 IH]; intros f2 s H1 H2.
  - apply Nat.le_0_r, len_zero in H1. subst. now destruct f2.
  - destruct f2 as [|f2].
    + apply Nat.le_0_r, len_zero in H2. subst. reflexivity.
    + cbn [mapLoop]. destruct s as [|c s']; [reflexivity | ].
      pose proof (decode_size (String c s')) as Hk.
      destruct (DecodeRuneInString (String c s')) as [r k]. cbn [snd] in Hk.
      f_equal. apply IH; rewrite len_sliceFrom; (specialize (Hk ltac:(discriminate)); lia).
Qed.

Lemma mapLoop_step (mapping : N -> N) (fuel : nat) (s : string) :
  s <> EmptyString ->
  mapLoop (S fuel) mapping s
  = AppendRune (mapping (DecodeRuneInString s).1)
      +:+ mapLoop fuel mapping (sliceFrom s (DecodeRuneInString s).2).
Proof.
  destruct s as [|c s']; [congruence | ]. intros _. cbn [mapLoop].
  now destruct (DecodeRuneInString (String c s')).
Qed.

Lemma mapLoop_split (mapping : N -> N) (fuel : nat) (l y : string) :
  len (l +:+ y) <= fuel -> startsRune y = true ->
  exists pre, mapLoop fuel mapping (l +:+ y) = pre +:+ mapLoop (len y) mapping y.
Proof.
  revert l. induction fuel as [|fuel IH]; intros l Hlen Hy.
  - apply Nat.le_0_r in Hlen. rewrite len_app in Hlen.
    assert (l = EmptyString) by (apply len_zero; lia).
    assert (y = EmptyString) by (apply len_zero; lia). subst.
    now exists EmptyString.
  - destruct l as [|s0 t0].
    + exists EmptyString. cbn [String.append] in *. now apply mapLoop_fuel.
    + remember (String s0 t0) as l eqn:El.
      assert (Hl : l <> EmptyString) by (subst l; discriminate).
      assert (Hly : l +:+ y <> EmptyString) by (subst l; discriminate).
      pose proof (decode_before l y Hl Hy) as Hb.
      pose proof (decode_size (l +:+ y) Hly) as Hk.
      rewrite (mapLoop_step mapping fuel _ Hly).
      destruct (DecodeRuneInString (l +:+ y)) as [r k]. cbn [fst snd] in *.
      rewrite (sliceFrom_app_le l y k Hb).
      destruct (IH (sliceFrom l k)) as (pre & Hpre).
      * rewrite len_app, len_sliceFrom. rewrite len_app in Hlen. lia.
      * exact Hy.
      * exists (AppendRune (mapping r) +:+ pre). now rewrite Hpre, app_assoc_s.
Qed.

Lemma decode_ascii (c : ascii) (s : string) :
  aboveASCII c = false -> DecodeRuneInString (String c s) = (N_of_ascii c, 1).
Proof.
  intros Hc. unfold DecodeRuneInString, first. cbv zeta.
  unfold aboveASCII in Hc. apply N.leb_gt in Hc.
  now destruct (N.ltb_spec (N_of_ascii c) 0x80); [ | lia].
Qed.

Lemma upper_ascii_rune (caseTable : N -> N) (c : ascii) :
  aboveASCII c = false ->
  AppendRune (ToUpperRune caseTable (N_of_ascii c)) = String (upperByte c) EmptyString.
Proof.
  destruct c as [[] [] [] [] [] [] [] []]; intros Hc; vm_compute in Hc;
    (discriminate Hc || reflexivity).
Qed.

Lemma mapLoop_ascii (caseTable : N -> N) (x rest : string) (fuel : nat) :
  allBytes isASCIIByte x = true -> len (x +:+ rest) <= fuel ->
  mapLoop fuel (ToUpperRune caseTable) (x +:+ rest)
  = mapBytes upperByte x +:+ mapLoop (len rest) (ToUpperRune caseTable) rest.
Proof.
  revert fuel. induction x as [|c x IH]; intros fuel Hx Hlen.
  - now apply mapLoop_fuel.
  - cbn [allBytes] in Hx. apply andb_true_iff in Hx as [Hc Hx].
    unfold isASCIIByte in Hc. apply negb_true_iff in Hc.
    cbn [String.append] in *. rewrite len_cons in Hlen.
    destruct fuel as [|fuel]; [lia | ].
    cbn [mapLoop]. rewrite (decode_ascii c _ Hc), (upper_ascii_rune _ c Hc).
    cbn [sliceFrom mapBytes String.append]. f_equal. apply IH; [exact Hx | lia].
Qed.

Lemma isASCII_startsRune (c : ascii) (s : string) :
  isASCIIByte c = true -> startsRune (String c s) = true.
Proof.
  unfold isASCIIByte, aboveASCII, startsRune, notContinuation.
  rewrite negb_true_iff, N.leb_gt. intros Hc.
  apply orb_true_iff. left. apply N.ltb_lt. exact Hc.
Qed.

(** Upper-casing keeps every run of ASCII bytes in place, upper-cased byte
    by byte, whatever surrounds it. *)
Lemma ToUpper_library_run (caseTable : N -> N) (l x r : string) :
  allBytes isASCIIByte x = true ->
  occursIn (mapBytes upperByte x) (ToUpper (library caseTable) (l +:+ x +:+ r)).
Proof.
  intros Hx. unfold ToUpper.
  destruct (allBytes isASCIIByte (l +:+ x +:+ r)).
  - exists (mapBytes upperByte l), (mapBytes upperByte r). now rewrite !mapBytes_app.
  - cbn [library MapToUpper]. unfold Map.
    destruct x as [|c x'].
    + exists EmptyString. eexists. reflexivity.
    + set (x := String c x') in *.
      assert (Hy : startsRune (x +:+ r) = true).
      { apply isASCII_startsRune. cbn [allBytes] in Hx. now apply andb_true_iff in Hx. }
      destruct (mapLoop_split (ToUpperRune caseTable) _ l (x +:+ r) (Nat.le_refl _) Hy)
        as (pre & ->).
      rewrite (mapLoop_ascii caseTable x r _ Hx (Nat.le_refl _)).
      now exists pre, (mapLoop (len r) (ToUpperRune caseTable) r).
Qed.

Lemma letterOf_ascii (c C : ascii) :
  letterOf c C = true -> isASCIIByte C = true -> isASCIIByte c = true.
Proof.
  unfold letterOf, isASCIIByte, aboveASCII.
  rewrite orb_true_iff, !andb_true_iff, !negb_true_iff, !N.leb_gt, !N.leb_le, N.eqb_eq.
  intros [Heq | [[Hlo Hhi] Hc]] HC.
  - apply Ascii.eqb_eq in Heq. now subst.
  - lia.
Qed.

Lemma spells_ascii (x m : string) :
  spells x m = true -> allBytes isASCIIByte m = true -> allBytes isASCIIByte x = true.
Proof.
  revert m. induction x as [|c x IH]; intros [|C m]; simpl; try discriminate;
    [reflexivity | ].
  rewrite !andb_true_iff. intros [Hc Hx] [HC Hm].
  split; [exact (letterOf_ascii c C Hc HC) | exact (IH m Hx Hm)].
Qed.

Lemma secretVars_ascii (m : string) :
  In m secretVars -> allBytes isASCIIByte m = true.
Proof.
  unfold secretVars. simpl. intros H.
  repeat (destruct H as [<- | H]; [reflexivity | ]). destruct H.
Qed.

(** A name that holds a marker in some mix of letter cases is classified
    as a secret, whatever its other bytes. *)
Lemma isSecret_marker (caseTable : N -> N) (name m : string) :
  In m secretVars -> containsAnyCase name m -> isSecret (library caseTable) name = true.
Proof.
  intros Hin (x & Hx & l & r & ->). unfold isSecret.
  apply containsAny_iff. exists m. split; [exact Hin | ].
  rewrite <- (spells_upper x m Hx (secretVars_upper m Hin)).
  apply ToUpper_library_run.
  exact (spells_ascii x m Hx (secretVars_ascii m Hin)).
Qed.

(** A name of ASCII bytes that is classified as a secret holds a marker in
    some mix of letter cases. *)
Lemma isSecret_ascii_marker (U : Unicode) (name : string) :
  allBytes isASCIIByte name = true -> isSecret U name = true ->
  exists m, In m secretVars /\ containsAnyCase name m.
Proof.
  intros Hascii Hs. unfold isSecret in Hs. rewrite (ToUpper_ascii U name Hascii) in Hs.
  apply containsAny_iff in Hs as (m & Hin & l' & r' & Hlr).
  apply mapBytes_app_inv in Hlr as (l & rest & -> & _ & Hrest).
  apply mapBytes_app_inv in Hrest as (x & r & -> & Hx & _).
  exists m. split; [exact Hin | ]. exists x. split; [ | exists l, r; reflexivity].
  rewrite <- Hx. apply upper_spells.
Qed.

(** A name that holds a marker in some mix of letter cases holds the marker
    itself once its ASCII letters are upper-cased. *)
Lemma containsAnyCase_upper (name m : string) :
  allBytes (fun C => negb (isLower C)) m = true ->
  containsAnyCase name m -> Contains (mapBytes upperByte name) m = true.
Proof.
  intros Hm (x & Hx & l & r & ->). apply Contains_iff.
  exists (mapBytes upperByte l), (mapBytes upperByte r).
  now rewrite !mapBytes_app, (spells_upper x m Hx Hm).
Qed.

(** ** The claim on the classifier *)

(** C4, as the program has it.  A name that contains one of the six
    markers PASSWORD, SECRET, KEY, TOKEN, CREDENTIAL, PRIVATE in some mix of
    letter cases is classified as a secret by [isSecret], whatever its other
    bytes; a name made of ASCII bytes that contains none of the six in any
    mix of letter cases is not; [DB_HOST], [DB_PORT] and [GOOGLE_CLIENT_ID]
    are not. *)
Theorem isSecret_markers (caseTable : N -> N) (name : string) :
  ((exists m, In m ["PASSWORD"; "SECRET"; "KEY"; "TOKEN"; "CREDENTIAL"; "PRIVATE"]
              /\ containsAnyCase name m) ->
   isSecret (library caseTable) name = true)
  /\ (allBytes isASCIIByte name = true ->
      (forall m, In m ["PASSWORD"; "SECRET"; "KEY"; "TOKEN"; "CREDENTIAL"; "PRIVATE"] ->
                 ~ containsAnyCase name m) ->
      isSecret (library caseTable) name = false)
  /\ isSecret (library caseTable) "DB_HOST" = false
  /\ isSecret (library caseTable) "DB_PORT" = false
  /\ isSecret (library caseTable) "GOOGLE_CLIENT_ID" = false.
Proof.
  split; [ | split; [ | repeat split]].
  - intros (m & Hin & Hm). exact (isSecret_marker caseTable name m Hin Hm).
  - intros Hascii Hnone.
    destruct (isSecret (library caseTable) name) eqn:Hs; [exfalso | reflexivity].
    destruct (isSecret_ascii_marker _ name Hascii Hs) as (m & Hin & Hm).
    exact (Hnone m Hin Hm).
Qed.

Lemma isSecret_markers_witness :
  isSecret (library caseFragment) "db_Password" = true
  /\ isSecret (library caseFragment) "DB_HOST" = false
  /\ isSecret (library caseFragment) "db_host" = false.
Proof.
  destruct (isSecret_markers caseFragment "db_Password") as (Hyes & _ & Hhost & _).
  destruct (isSecret_markers caseFragment "db_host") as (_ & Hno & _).
  split; [ | split; [exact Hhost | ]].
  - apply Hyes. exists "PASSWORD". split; [simpl; tauto | ].
    exists "Password". split; [reflexivity | ].
    exists "db_", EmptyString. reflexivity.
  - apply Hno; [reflexivity | ].
    intros m Hin Hm.
    assert (Hup : allBytes (fun C => negb (isLower C)) m = true)
      by (apply secretVars_upper; exact Hin).
    pose proof (containsAnyCase_upper "db_host" m Hup Hm) as Hc.
    simpl in Hin.
    repeat (destruct Hin as [<- | Hin]; [discriminate Hc | ]). destruct Hin.
Defined.

(** C4, refuted as stated, beyond ASCII: the name spelled long s (U+017F),
    e, c, r, e, t contains none of the six markers in any mix of letter
    cases, and [isSecret] classifies it as a secret, because the upper case
    of the long s is the letter S. *)
Lemma isSecret_long_s_counterexample :
  (forall m, In m ["PASSWORD"; "SECRET"; "KEY"; "TOKEN"; "CREDENTIAL"; "PRIVATE"] ->
             ~ containsAnyCase longSecret m)
  /\ isSecret (library caseFragment) longSecret = true.
Proof.
  split; [ | reflexivity].
  intros m Hin Hm.
  assert (Hup : allBytes (fun C => negb (isLower C)) m = true)
    by (apply secretVars_upper; exact Hin).
  pose proof (containsAnyCase_upper longSecret m Hup Hm) as Hc.
  simpl in Hin.
  repeat (destruct Hin as [<- | Hin]; [discriminate Hc | ]). destruct Hin.
Qed.
